(** * The number pipeline of Homework_Hillel

    A shallow embedding of the two versions of the number-filtering
    pipeline:

    - [src/number_pipeline.cpp]: the filter factory is an if-chain, the
      reader reports an unopenable file on [std::cerr] and returns an
      empty vector;
    - [src/unnamed/part_000]: the filter factory is a [std::map] registry
      matched by prefix, the reader throws [std::runtime_error].

    The interfaces, filters, observers and [NumberProcessor] are the same
    text in both files and are embedded once.  [int] is a 32-bit integer
    carried by [Z]; [std::string] is [string]; exceptions are values of
    [exception] returned through [result]; [std::cout], [std::cerr] and the
    observer objects live in an explicit [world] threaded by a small
    state-and-exception monad. *)

From Stdlib Require Import ZArith Ascii List Lia Bool.
From Stdlib Require String DecimalString DecimalPos.
From stdpp Require Import base list strings.

Import ListNotations.
Local Open Scope Z_scope.

(** ** Machine integers *)

Definition INT_MIN : Z := - 2 ^ 31.
Definition INT_MAX : Z := 2 ^ 31 - 1.

Definition in_int_range (v : Z) : bool := (INT_MIN <=? v) && (v <=? INT_MAX).

(** The value an [int] holds after an arithmetic result [v]: the
    two's-complement representative of [v] modulo [2^32]. *)
Definition wrap_int (v : Z) : Z := (v + 2 ^ 31) mod 2 ^ 32 - 2 ^ 31.

(** [std::ostream << int]: decimal digits, with a leading minus sign for
    negative values. *)
Definition to_string (v : Z) : string := DecimalString.NilZero.string_of_int (Z.to_int v).

(** [std::endl] as it reaches the stream: a line feed. *)
Definition endl : string := String (ascii_of_nat 10) EmptyString.

(** ** Exceptions *)

Inductive exception : Type :=
| invalid_argument (msg : string)
| runtime_error (msg : string)
| out_of_range (msg : string).

(** [std::exception::what]. *)
Definition what (e : exception) : string :=
  match e with
  | invalid_argument msg => msg
  | runtime_error msg => msg
  | out_of_range msg => msg
  end.

Inductive result (A : Type) : Type :=
| Ok (a : A)
| Throw (e : exception).

Arguments Ok {A} a.
Arguments Throw {A} e.

(** ** Characters and formatted extraction *)

(** [std::isspace] in the "C" locale: space, and HT, LF, VT, FF, CR. *)
Definition isspace (c : ascii) : bool :=
  let n := N_of_ascii c in
  ((n =? 32) || ((9 <=? n) && (n <=? 13)))%N.

Definition isdigit (c : ascii) : bool :=
  let n := N_of_ascii c in
  ((48 <=? n) && (n <=? 57))%N.

Definition digit_value (c : ascii) : Z := Z.of_N (N_of_ascii c) - 48.

(** The stream sentry with [skipws] set: leading whitespace is dropped. *)
Fixpoint skipws (s : string) : string :=
  match s with
  | EmptyString => EmptyString
  | String c r => if isspace c then skipws r else s
  end.

(** Accumulation of the maximal run of decimal digits in front of [s]
    onto [acc]; returns the value and the unread rest. *)
Fixpoint digits (acc : Z) (s : string) : Z * string :=
  match s with
  | EmptyString => (acc, EmptyString)
  | String c r =>
      if isdigit c then digits (10 * acc + digit_value c) r else (acc, s)
  end.

(** An optional sign in front of the digits: [(negative, rest)]. *)
Definition sign (s : string) : bool * string :=
  match s with
  | String c r =>
      if Ascii.eqb c "-" then (true, r)
      else if Ascii.eqb c "+" then (false, r)
      else (false, s)
  | EmptyString => (false, s)
  end.

(** [stream >> value] for an [int] with the default flags ([skipws],
    [dec]): whitespace is skipped, an optional sign and the maximal run of
    digits are read; the extraction fails ([None]: [failbit] is set) when
    there is no digit or when the value does not fit an [int]. On success
    the value and the unread rest of the stream are returned. *)
Definition extract_int (s : string) : option (Z * string) :=
  let '(neg, s2) := sign (skipws s) in
  match s2 with
  | EmptyString => None
  | String c _ =>
      if isdigit c then
        let '(m, rest) := digits 0 s2 in
        let v := if neg then - m else m in
        if in_int_range v then Some (v, rest) else None
      else None
  end.

(** [s.rfind(key, 0) == 0]: the only match [rfind] can report at or before
    position 0 is [key] standing at the front of [s]. *)
Definition rfind_at_0 (s key : string) : bool := String.prefix key s.

(** [s.substr(pos)]: throws [std::out_of_range] when [pos > s.size()]. *)
Definition substr (s : string) (pos : nat) : result string :=
  if (String.length s <? pos)%nat then Throw (out_of_range "basic_string::substr")
  else Ok (String.substring pos (String.length s - pos) s).

(** ** Filters *)

Inductive INumberFilter : Type :=
| EvenFilter
| OddFilter
| GreaterThanFilter (threshold : Z).

(** [INumberFilter::keep] through the virtual table; [%] on [int] is the
    remainder of the division truncated towards zero. *)
Definition keep (f : INumberFilter) (number : Z) : bool :=
  match f with
  | EvenFilter => Z.rem number 2 =? 0
  | OddFilter => negb (Z.rem number 2 =? 0)
  | GreaterThanFilter threshold => number >? threshold
  end.

(** ** Observers *)

Inductive INumberObserver : Type :=
| PrintObserver
| CountObserver (count : Z).

(** [INumberObserver::on_number]: the object after the call and the text
    it sent to [std::cout]. [++count] on an [int] is taken modulo [2^32]
    (the language leaves the overflow undefined). *)
Definition on_number (o : INumberObserver) (number : Z)
    : INumberObserver * string :=
  match o with
  | PrintObserver => (PrintObserver, to_string number +:+ endl)
  | CountObserver count => (CountObserver (wrap_int (count + 1)), "")
  end.

(** [INumberObserver::on_finished]. *)
Definition on_finished (o : INumberObserver) : INumberObserver * string :=
  match o with
  | PrintObserver => (PrintObserver, "")
  | CountObserver count =>
      (CountObserver count,
       "Total numbers passed filter: " +:+ to_string count +:+ endl)
  end.

(** ** The world: observer objects, the two streams, and the calls made *)

(** A virtual call on the observer object at address [obs]. *)
Inductive call : Type :=
| on_number_call (obs : nat) (number : Z)
| on_finished_call (obs : nat).

(** [objects] holds the observer objects by address ([INumberObserver*] is an
    index into it); [calls] records, oldest first, every virtual call the
    processor makes. *)
Record world : Type := World {
  objects : list INumberObserver;
  cout : string;
  cerr : string;
  calls : list call
}.

Definition initial_world : world :=
  {| objects := []; cout := ""; cerr := ""; calls := [] |}.

(** Computations that read and change the world and may throw. *)
Definition M (A : Type) : Type := world -> result A * world.

Definition ret {A : Type} (a : A) : M A := fun w => (Ok a, w).

Definition bind {A B : Type} (k : A -> M B) (m : M A) : M B := fun w =>
  match m w with
  | (Ok a, w') => k a w'
  | (Throw e, w') => (Throw e, w')
  end.

#[export] Instance M_ret : MRet M := @ret.
#[export] Instance M_bind : MBind M := @bind.

Definition throw {A : Type} (e : exception) : M A := fun w => (Throw e, w).

(** [try { body } catch (const std::exception& e) { handler }]. *)
Definition try_catch {A : Type} (body : M A) (handler : exception -> M A)
    : M A := fun w =>
  match body w with
  | (Ok a, w') => (Ok a, w')
  | (Throw e, w') => handler e w'
  end.

(** A value or exception computed without touching the world. *)
Definition lift {A : Type} (r : result A) : M A := fun w => (r, w).

Definition write_cerr (text : string) : M unit := fun w =>
  (Ok tt, {| objects := objects w; cout := cout w;
             cerr := cerr w +:+ text; calls := calls w |}).

(** Construction of an observer object; its address is returned. *)
Definition new_observer (o : INumberObserver) : M nat := fun w =>
  (Ok (length (objects w)),
   {| objects := objects w ++ [o]; cout := cout w;
      cerr := cerr w; calls := calls w |}).

(** [obs->on_number(number)]. The call is recorded; the object at [obs] is
    replaced by its state after the call and its text is appended to
    [std::cout]. An address that holds no object leaves the objects and the
    streams as they are. *)
Definition call_on_number (obs : nat) (number : Z) : M unit := fun w =>
  match objects w !! obs with
  | Some o =>
      let '(o', text) := on_number o number in
      (Ok tt, {| objects := <[obs := o']> (objects w);
                 cout := cout w +:+ text; cerr := cerr w;
                 calls := calls w ++ [on_number_call obs number] |})
  | None =>
      (Ok tt, {| objects := objects w; cout := cout w; cerr := cerr w;
                 calls := calls w ++ [on_number_call obs number] |})
  end.

(** [obs->on_finished()]. *)
Definition call_on_finished (obs : nat) : M unit := fun w =>
  match objects w !! obs with
  | Some o =>
      let '(o', text) := on_finished o in
      (Ok tt, {| objects := <[obs := o']> (objects w);
                 cout := cout w +:+ text; cerr := cerr w;
                 calls := calls w ++ [on_finished_call obs] |})
  | None =>
      (Ok tt, {| objects := objects w; cout := cout w; cerr := cerr w;
                 calls := calls w ++ [on_finished_call obs] |})
  end.

(** A range-for whose body may throw. *)
Fixpoint for_each {A : Type} (l : list A) (body : A -> M unit) : M unit :=
  match l with
  | [] => mret tt
  | x :: l' => body x ;; for_each l' body
  end.

(** ** NumberProcessor *)

Section NumberProcessor.

Variable reader : string -> M (list Z).
Variable filter : INumberFilter.
Variable observers : list nat.

Definition run (filename : string) : M unit :=
  numbers ← reader filename;
  for_each numbers (fun number =>
    if keep filter number
    then for_each observers (fun obs => call_on_number obs number)
    else mret tt);;
  for_each observers call_on_finished.

End NumberProcessor.

(** ** Reading numbers from a stream *)

(** The files of the machine: [None] for a name that cannot be opened,
    otherwise the content. *)
Definition filesystem : Type := string -> option string.

(** [while (file >> num) numbers.push_back(num);] with at most [fuel]
    successful extractions. *)
Fixpoint read_loop (fuel : nat) (stream : string) : list Z :=
  match fuel with
  | O => []
  | S fuel' =>
      match extract_int stream with
      | None => []
      | Some (num, rest) => num :: read_loop fuel' rest
      end
  end.

(** Every successful extraction reads a digit, so the loop makes at most
    as many of them as the stream has characters. *)
Definition read_stream (content : string) : list Z :=
  read_loop (S (String.length content)) content.

(** ** main *)

Section Main.

Variable create_filter : string -> result INumberFilter.
Variable read_numbers : string -> M (list Z).

Definition usage : string :=
  "Usage: ./number_pipeline <FILTER> <FILENAME>" +:+ endl +:+
  "Example: ./number_pipeline EVEN numbers.txt" +:+ endl.

(** [main] of both versions; [argv] holds the program name and the
    arguments, the result is the return value. *)
Definition main_with (argv : list string) : M Z :=
  match argv with
  | [_; filter_str; filename] =>
      try_catch
        (filter ← lift (create_filter filter_str);
         printObserver ← new_observer PrintObserver;
         countObserver ← new_observer (CountObserver 0);
         run read_numbers filter [printObserver; countObserver] filename;;
         mret 0)
        (fun e => write_cerr ("Error: " +:+ what e +:+ endl) ;; mret 2)
  | _ => write_cerr usage ;; mret 1
  end.

End Main.

(** What a terminated process leaves behind. *)
Record outcome : Type := Outcome {
  exit_code : result Z;
  stdout : string;
  stderr : string
}.

Definition execute (program : M Z) : outcome :=
  let '(r, w) := program initial_world in
  {| exit_code := r; stdout := cout w; stderr := cerr w |}.

(** ** number_pipeline.cpp *)

Module Pipeline.

Definition read_numbers (fs : filesystem) (filename : string) : M (list Z) :=
  match fs filename with
  | None =>
      write_cerr ("Error: Cannot open file " +:+ filename +:+ endl);;
      mret []
  | Some content => mret (read_stream content)
  end.

Definition create_filter (filter_str : string) : result INumberFilter :=
  if String.eqb filter_str "EVEN" then Ok EvenFilter
  else if String.eqb filter_str "ODD" then Ok OddFilter
  else if rfind_at_0 filter_str "GT" then
    match substr filter_str 2 with
    | Throw e => Throw e
    | Ok arg =>
        match extract_int arg with
        | None => Throw (invalid_argument "Invalid GT filter format")
        | Some (threshold, _) => Ok (GreaterThanFilter threshold)
        end
    end
  else Throw (invalid_argument ("Unknown filter: " +:+ filter_str)).

Definition main (fs : filesystem) (argv : list string) : M Z :=
  main_with create_filter (read_numbers fs) argv.

End Pipeline.

(** ** part_000 *)

Module Registry.

Definition read_numbers (fs : filesystem) (filename : string) : M (list Z) :=
  match fs filename with
  | None => throw (runtime_error ("Cannot open file: " +:+ filename))
  | Some content => mret (read_stream content)
  end.

Definition FactoryFunction : Type := string -> result INumberFilter.

(** [std::map<std::string, FactoryFunction>]: the entries in increasing key
    order, each key once; a range-for visits them in that order. *)
Definition registry_map : Type := list (string * FactoryFunction).

(** [registry[key] = factory]. *)
Fixpoint assign (key : string) (factory : FactoryFunction)
    (m : registry_map) : registry_map :=
  match m with
  | [] => [(key, factory)]
  | (k, g) :: m' =>
      match String.compare key k with
      | Lt => (key, factory) :: m
      | Eq => (key, factory) :: m'
      | Gt => (k, g) :: assign key factory m'
      end
  end.

Definition even_factory : FactoryFunction := fun _ => Ok EvenFilter.

Definition odd_factory : FactoryFunction := fun _ => Ok OddFilter.

Definition gt_factory : FactoryFunction := fun input =>
  match substr input 2 with
  | Throw e => Throw e
  | Ok arg =>
      match extract_int arg with
      | None => Throw (invalid_argument ("Invalid GT filter format: " +:+ input))
      | Some (threshold, _) => Ok (GreaterThanFilter threshold)
      end
  end.

(** The constructor [FilterFactory()]. *)
Definition registry : registry_map :=
  assign "GT" gt_factory
    (assign "ODD" odd_factory (assign "EVEN" even_factory [])).

(** The range-for of [create_filter] over the entries of a registry. *)
Fixpoint create_filter_in (m : registry_map) (filter_str : string)
    : result INumberFilter :=
  match m with
  | [] => Throw (invalid_argument ("Unknown filter: " +:+ filter_str))
  | (key, factory) :: m' =>
      if rfind_at_0 filter_str key then factory filter_str
      else create_filter_in m' filter_str
  end.

Definition create_filter (filter_str : string) : result INumberFilter :=
  create_filter_in registry filter_str.

Definition main (fs : filesystem) (argv : list string) : M Z :=
  main_with create_filter (read_numbers fs) argv.

End Registry.

(** ** The wording of the specification *)

(** The definitions of this part follow the sentences of the specification,
    not the code; the theorems below compare the two. *)

Fixpoint all_space (s : string) : bool :=
  match s with
  | EmptyString => true
  | String c r => isspace c && all_space r
  end.

Fixpoint all_digits (s : string) : bool :=
  match s with
  | EmptyString => true
  | String c r => isdigit c && all_digits r
  end.

(** The text does not go on with a digit. *)
Definition starts_nondigit (s : string) : bool :=
  match s with
  | EmptyString => true
  | String c _ => negb (isdigit c)
  end.

(** The text does not go on with whitespace. *)
Definition starts_nonspace (s : string) : bool :=
  match s with
  | EmptyString => true
  | String c _ => negb (isspace c)
  end.

(** The number a string of decimal digits writes, in front of which [acc]
    has been read already. *)
Fixpoint digits_value (acc : Z) (s : string) : Z :=
  match s with
  | EmptyString => acc
  | String c r => digits_value (10 * acc + digit_value c) r
  end.

(** "a decimal integer (optionally signed)": an optional [+] or [-], then
    one digit or more, and nothing else. *)
Definition is_decimal_integer (s : string) : bool :=
  match s with
  | EmptyString => false
  | String c r =>
      if Ascii.eqb c "-" || Ascii.eqb c "+"
      then negb (String.eqb r "") && all_digits r
      else all_digits s
  end.

Definition decimal_value (s : string) : Z :=
  match s with
  | EmptyString => 0
  | String c r =>
      if Ascii.eqb c "-" then - digits_value 0 r
      else if Ascii.eqb c "+" then digits_value 0 r
      else digits_value 0 s
  end.

(** An integer token: a decimal integer that an [int] can hold. *)
Definition is_int_token (t : string) : bool :=
  is_decimal_integer t && in_int_range (decimal_value t).

(** "exact match EVEN -> even-filter; exact match ODD -> odd-filter; prefix
    match GT followed by a decimal integer (optionally signed) ->
    greater-than-filter with that threshold"; no other token is in the
    grammar. *)
Definition spec_create_filter (token : string) : option INumberFilter :=
  if String.eqb token "EVEN" then Some EvenFilter
  else if String.eqb token "ODD" then Some OddFilter
  else if String.prefix "GT" token then
    let arg := String.substring 2 (String.length token - 2) token in
    if is_int_token arg then Some (GreaterThanFilter (decimal_value arg))
    else None
  else None.

(** The maximal run of characters that are not whitespace in front of [s],
    and what follows it. *)
Fixpoint span_token (s : string) : string * string :=
  match s with
  | EmptyString => (EmptyString, EmptyString)
  | String c r =>
      if isspace c then (EmptyString, s)
      else let '(t, rest) := span_token r in (String c t, rest)
  end.

(** "the maximal prefix of whitespace-separated tokens that parse as
    integers": the values of the integer tokens in front of the content,
    and the content left at the first token that is not one (or at the
    end). *)
Fixpoint spec_scan (fuel : nat) (s : string) : list Z * string :=
  match fuel with
  | O => ([], s)
  | S fuel' =>
      let '(t, rest) := span_token (skipws s) in
      if is_int_token t then
        let '(values, unread) := spec_scan fuel' rest in
        (decimal_value t :: values, unread)
      else ([], s)
  end.

Definition spec_read_numbers (content : string) : list Z :=
  fst (spec_scan (S (String.length content)) content).

Definition spec_unread (content : string) : string :=
  snd (spec_scan (S (String.length content)) content).

(** The two user-input errors of the factory, told apart by the message
    of the [std::invalid_argument] that carries them. *)
Inductive error_kind : Type :=
| unknown_filter
| invalid_filter_argument
| other_error.

Definition kind_of (e : exception) : error_kind :=
  match e with
  | invalid_argument msg =>
      if String.prefix "Unknown filter: " msg then unknown_filter
      else if String.prefix "Invalid GT filter format" msg
      then invalid_filter_argument
      else other_error
  | _ => other_error
  end.

(** Two factory results agree: filters that keep the same integers, or
    errors of the same kind. *)
Definition agree (a b : result INumberFilter) : Prop :=
  match a, b with
  | Ok f, Ok g => forall n : Z, keep f n = keep g n
  | Throw e1, Throw e2 => kind_of e1 = kind_of e2
  | _, _ => False
  end.

(** The lines the two observers of [main] print for the numbers read:
    every kept value on a line of its own, then the summary. *)
Definition kept_lines (values : list Z) : string :=
  fold_right (fun v text => to_string v +:+ endl +:+ text) "" values.

Definition report (f : INumberFilter) (numbers : list Z) : string :=
  let kept := List.filter (keep f) numbers in
  kept_lines kept +:+
  "Total numbers passed filter: " +:+
  to_string (wrap_int (Z.of_nat (length kept))) +:+ endl.

(** A token of the greater-than form as the factories read it: [GT],
    optional whitespace, an integer token, and any text that does not go
    on with a digit; [f] is the filter with the token's value. *)
Definition gt_form (token : string) (f : INumberFilter) : Prop :=
  exists ws d tail : string,
    token = "GT" +:+ ws +:+ d +:+ tail /\ all_space ws = true /\
    is_int_token d = true /\ starts_nondigit tail = true /\
    f = GreaterThanFilter (decimal_value d).

(** [token] begins with [p] and goes on after it. *)
Definition proper_prefix (p token : string) : bool :=
  String.prefix p token && negb (String.eqb token p).

(** The calls the pass over [numbers] makes: for every kept value, in
    arrival order, [on_number] on every observer in registration order. *)
Definition number_calls (f : INumberFilter) (observers : list nat)
    (numbers : list Z) : list call :=
  flat_map (fun number =>
    if keep f number
    then List.map (fun obs => on_number_call obs number) observers
    else []) numbers.

(** The observers [on_finished] was called on, oldest call first. *)
Fixpoint finished_calls (cs : list call) : list nat :=
  match cs with
  | [] => []
  | on_finished_call obs :: cs' => obs :: finished_calls cs'
  | on_number_call _ _ :: cs' => finished_calls cs'
  end.

(** The world [main] has built when it calls [run]. *)
Definition world_of_main : world :=
  {| objects := [PrintObserver; CountObserver 0]; cout := ""; cerr := "";
     calls := [] |}.

(** A file system with one readable file. *)
Definition single_file (name content : string) : filesystem := fun n =>
  if String.eqb n name then Some content else None.

(** The registry entries whose key stands at the front of the token, in
    the order of the registry. *)
Definition matching_entries (m : Registry.registry_map) (token : string)
    : Registry.registry_map :=
  List.filter (fun entry => rfind_at_0 token (fst entry)) m.

(** ** The logging demo (the second program of number_pipeline.cpp, and
    test.cpp) *)

Module Logging.

Inductive LogSink : Type :=
| ConsoleSink
| FileSink
| NullSink.

Inductive SinkType : Type :=
| CONSOLE
| FILE
| NONE.

(** The object behind [Logger::instance()]; [sink_] is the [unique_ptr]. *)
Record Logger : Type := { sink_ : option LogSink }.

(** What the demo reads and changes: the two streams, the file app.log
    ([None] while it does not exist), whether opening it for appending
    succeeds, and the function-local static [instance] ([None] until the
    first call of [Logger::instance]). *)
Record process : Type := {
  out : string;
  err : string;
  app_log : option string;
  app_log_opens : bool;
  static_instance : option Logger
}.

Definition print (text : string) (w : process) : process :=
  {| out := out w +:+ text; err := err w; app_log := app_log w;
     app_log_opens := app_log_opens w; static_instance := static_instance w |}.

Definition print_err (text : string) (w : process) : process :=
  {| out := out w; err := err w +:+ text; app_log := app_log w;
     app_log_opens := app_log_opens w; static_instance := static_instance w |}.

(** [std::ofstream file("app.log", std::ios::app); if (file.is_open())
    file << text;]: the text goes after what the file holds; the file is
    created when it is not there. *)
Definition append_app_log (text : string) (w : process) : process :=
  if app_log_opens w then
    {| out := out w; err := err w;
       app_log := Some (match app_log w with
                        | Some content => content +:+ text
                        | None => text
                        end);
       app_log_opens := true; static_instance := static_instance w |}
  else w.

(** [LogSink::write]. *)
Definition write (sink : LogSink) (msg : string) (w : process) : process :=
  match sink with
  | ConsoleSink => print ("[Console] " +:+ msg +:+ endl) w
  | FileSink => append_app_log ("[File] " +:+ msg +:+ endl) w
  | NullSink => w
  end.

(** [Logger::set_sink] on the object [this]: the new state of the object
    and the process after the message. *)
Definition Logger_set_sink (type : SinkType) (this : Logger) (w : process)
    : Logger * process :=
  match type with
  | CONSOLE =>
      ({| sink_ := Some ConsoleSink |}, print ("Log sink set to CONSOLE." +:+ endl) w)
  | FILE =>
      ({| sink_ := Some FileSink |}, print ("Log sink set to FILE." +:+ endl) w)
  | NONE =>
      ({| sink_ := Some NullSink |},
       print ("Log sink set to NONE (no output)." +:+ endl) w)
  end.

(** [Logger::log] on the object [this]. *)
Definition Logger_log (msg : string) (this : Logger) (w : process) : process :=
  match sink_ this with
  | Some sink => write sink msg w
  | None => w
  end.

Definition store_instance (this : Logger) (w : process) : process :=
  {| out := out w; err := err w; app_log := app_log w;
     app_log_opens := app_log_opens w; static_instance := Some this |}.

(** [Logger::instance()]: the first call runs the constructor, which sets
    the console sink; every call returns the one object. *)
Definition instance (w : process) : Logger * process :=
  match static_instance w with
  | Some this => (this, w)
  | None =>
      let '(this, w') := Logger_set_sink CONSOLE {| sink_ := None |} w in
      (this, store_instance this w')
  end.

(** [Logger::instance().set_sink(type)]. *)
Definition set_sink (type : SinkType) (w : process) : process :=
  let '(this, w1) := instance w in
  let '(this', w2) := Logger_set_sink type this w1 in
  store_instance this' w2.

(** [Logger::instance().log(msg)]. *)
Definition log (msg : string) (w : process) : process :=
  let '(this, w1) := instance w in
  Logger_log msg this w1.

(** [std::tolower] in the "C" locale. *)
Definition tolower (c : ascii) : ascii :=
  let n := N_of_ascii c in
  if ((65 <=? n) && (n <=? 90))%N then ascii_of_N (n + 32) else c.

(** [std::transform(s.begin(), s.end(), s.begin(), tolower)]. *)
Fixpoint lowercase (s : string) : string :=
  match s with
  | EmptyString => EmptyString
  | String c r => String (tolower c) (lowercase r)
  end.

Definition parse_sink_type (input : string) : result SinkType :=
  let s := lowercase input in
  if String.eqb s "console" then Ok CONSOLE
  else if String.eqb s "file" then Ok FILE
  else if String.eqb s "none" then Ok NONE
  else Throw (invalid_argument ("Unknown sink type: " +:+ input)).

(** [main]; [argv] holds the program name and the arguments, the result is
    the return value and the process it leaves. *)
Definition main (argv : list string) (w : process) : Z * process :=
  let '(type, w1) :=
    match argv with
    | _ :: arg :: _ => (parse_sink_type arg, w)
    | _ =>
        (Ok CONSOLE,
         print ("No sink type specified. Using default: CONSOLE." +:+ endl) w)
    end in
  match type with
  | Ok type =>
      let w2 := set_sink type w1 in
      let w3 := log "Test message 1" w2 in
      let w4 := log "Test message 2" w3 in
      let w5 := log "Test message 3" w4 in
      (0, print ("Logging complete." +:+ endl) w5)
  | Throw ex =>
      (1, print_err ("Valid options: console, file, none" +:+ endl)
            (print_err ("Error: " +:+ what ex +:+ endl) w1))
  end.

(** A process at its start: nothing written, no logger yet. *)
Definition start (file : option string) (opens : bool) : process :=
  {| out := ""; err := ""; app_log := file; app_log_opens := opens;
     static_instance := None |}.

(** A call a client of the logger can make. *)
Inductive operation : Type :=
| do_set_sink (type : SinkType)
| do_log (msg : string).

Definition perform (op : operation) (w : process) : process :=
  match op with
  | do_set_sink type => set_sink type w
  | do_log msg => log msg w
  end.

Definition perform_all (ops : list operation) (w : process) : process :=
  fold_left (fun w op => perform op w) ops w.

(** [input] spells [name] when upper-case letters count as their
    lower-case ones: character by character, the same character, or the
    upper-case letter of it. *)
Definition spells_char (c d : ascii) : bool :=
  Ascii.eqb c d ||
  ((65 <=? N_of_ascii c) && (N_of_ascii c <=? 90) &&
   (N_of_ascii c + 32 =? N_of_ascii d))%N.

Fixpoint spells (input name : string) : bool :=
  match input, name with
  | EmptyString, EmptyString => true
  | String c input', String d name' => spells_char c d && spells input' name'
  | _, _ => false
  end.

Definition sink_name (type : SinkType) : string :=
  match type with
  | CONSOLE => "console"
  | FILE => "file"
  | NONE => "none"
  end.

(** What the file app.log holds, the absent file holding nothing. *)
Definition content_of (file : option string) : string :=
  match file with
  | Some content => content
  | None => ""
  end.

(** The sink object [set_sink] installs for a type. *)
Definition sink_of (type : SinkType) : LogSink :=
  match type with
  | CONSOLE => ConsoleSink
  | FILE => FileSink
  | NONE => NullSink
  end.

(** The lines a sequence of messages gives, each after the tag of a
    sink. *)
Definition tagged_lines (tag : string) (msgs : list string) : string :=
  fold_right (fun msg text => tag +:+ msg +:+ endl +:+ text) "" msgs.

(** [w'] is [w] after writing: standard error and the way app.log opens
    are the same, standard output and app.log hold what they held and
    possibly more after it, and app.log has not disappeared. *)
Definition grows (w w' : process) : Prop :=
  err w' = err w /\ app_log_opens w' = app_log_opens w /\
  (exists text, out w' = out w +:+ text) /\
  (exists text, content_of (app_log w') = content_of (app_log w) +:+ text) /\
  match app_log w with
  | Some _ => app_log w' <> None
  | None => True
  end.

End Logging.

(** * Facts about strings *)

Lemma string_app_cons (c : ascii) (a b : string) :
  String c a +:+ b = String c (a +:+ b).
Proof. reflexivity. Qed.

Lemma string_app_nil_l (a : string) : "" +:+ a = a.
Proof. reflexivity. Qed.

Lemma string_app_nil_r (a : string) : a +:+ "" = a.
Proof.
  induction a as [|c a IH]; [reflexivity|].
  rewrite string_app_cons, IH. reflexivity.
Qed.

Lemma string_app_assoc (a b c : string) : (a +:+ b) +:+ c = a +:+ (b +:+ c).
Proof.
  induction a as [|x a IH]; [reflexivity|].
  rewrite !string_app_cons, IH. reflexivity.
Qed.

Lemma string_length_app (a b : string) :
  String.length (a +:+ b) = (String.length a + String.length b)%nat.
Proof.
  induction a as [|x a IH]; [reflexivity|].
  rewrite string_app_cons. simpl. rewrite IH. reflexivity.
Qed.

Lemma substring_all (s : string) : String.substring 0 (String.length s) s = s.
Proof.
  induction s as [|c s IH]; [reflexivity|]. simpl. rewrite IH. reflexivity.
Qed.

(** Dropping the first [length p] characters of [p +:+ r] leaves [r]. *)
Lemma substring_drop_app (p r : string) :
  String.substring (String.length p)
    (String.length (p +:+ r) - String.length p) (p +:+ r) = r.
Proof.
  induction p as [|c p IH].
  - simpl. rewrite string_app_nil_l, Nat.sub_0_r. apply substring_all.
  - rewrite string_app_cons. simpl. exact IH.
Qed.

Lemma prefix_app (p r : string) : String.prefix p (p +:+ r) = true.
Proof.
  induction p as [|c p IH].
  - destruct r; reflexivity.
  - rewrite string_app_cons. simpl. destruct (ascii_dec c c); [exact IH|congruence].
Qed.

Lemma prefix_split (p s : string) :
  String.prefix p s = true -> exists r, s = p +:+ r.
Proof.
  revert s. induction p as [|c p IH]; intros s H.
  - exists s. reflexivity.
  - destruct s as [|d s]; simpl in H; [discriminate|].
    destruct (ascii_dec c d) as [->|]; [|discriminate].
    destruct (IH s H) as [r ->]. exists r. reflexivity.
Qed.

Lemma prefix_iff (p s : string) :
  String.prefix p s = true <-> exists r, s = p +:+ r.
Proof.
  split; [apply prefix_split|]. intros [r ->]. apply prefix_app.
Qed.

Lemma substr_app (p r : string) :
  substr (p +:+ r) (String.length p) = Ok r.
Proof.
  unfold substr. rewrite string_length_app.
  destruct (Nat.ltb_spec (String.length p + String.length r) (String.length p)) as [H|H];
    [lia|].
  rewrite <- string_length_app, substring_drop_app. reflexivity.
Qed.

(** * Facts about formatted extraction *)

Lemma isdigit_not_space (c : ascii) : isdigit c = true -> isspace c = false.
Proof.
  unfold isdigit, isspace. intros H.
  apply andb_true_iff in H as [H1 H2].
  apply N.leb_le in H1. apply N.leb_le in H2.
  apply orb_false_iff. split.
  - apply N.eqb_neq. lia.
  - apply andb_false_iff. right. apply N.leb_gt. lia.
Qed.

Lemma sign_not_digit (c : ascii) :
  Ascii.eqb c "-" || Ascii.eqb c "+" = true ->
  isdigit c = false /\ isspace c = false.
Proof.
  intros H. apply orb_true_iff in H as [H|H];
    apply Ascii.eqb_eq in H; subst c; split; reflexivity.
Qed.

Lemma skipws_app_space (ws s : string) :
  all_space ws = true -> skipws (ws +:+ s) = skipws s.
Proof.
  induction ws as [|c ws IH]; intros H; [reflexivity|].
  simpl in H. apply andb_true_iff in H as [Hc Hws].
  rewrite string_app_cons. simpl. rewrite Hc. auto.
Qed.

Lemma skipws_split (s : string) :
  exists ws, s = ws +:+ skipws s /\ all_space ws = true.
Proof.
  induction s as [|c s (ws & E & Hws)].
  - exists "". split; reflexivity.
  - simpl. destruct (isspace c) eqn:Hc.
    + exists (String c ws). rewrite string_app_cons, <- E. simpl.
      rewrite Hc, Hws. split; reflexivity.
    + exists "". split; reflexivity.
Qed.

Lemma skipws_starts_nonspace (s : string) : starts_nonspace (skipws s) = true.
Proof.
  induction s as [|c s IH]; [reflexivity|].
  simpl. destruct (isspace c) eqn:Hc; [exact IH|]. simpl. rewrite Hc. reflexivity.
Qed.

Lemma skipws_fixed (s : string) : starts_nonspace s = true -> skipws s = s.
Proof.
  destruct s as [|c s]; [reflexivity|]. simpl.
  destruct (isspace c); [discriminate|reflexivity].
Qed.

Lemma digits_app (d tail : string) (acc : Z) :
  all_digits d = true -> starts_nondigit tail = true ->
  digits acc (d +:+ tail) = (digits_value acc d, tail).
Proof.
  revert acc. induction d as [|c d IH]; intros acc Hd Ht.
  - rewrite string_app_nil_l. simpl.
    destruct tail as [|c tail]; [reflexivity|]. simpl in *.
    destruct (isdigit c); [discriminate|reflexivity].
  - simpl in Hd. apply andb_true_iff in Hd as [Hc Hd].
    rewrite string_app_cons. simpl. rewrite Hc. auto.
Qed.

Lemma digits_split (s : string) (acc : Z) :
  exists d, s = d +:+ snd (digits acc s) /\ all_digits d = true /\
            fst (digits acc s) = digits_value acc d /\
            starts_nondigit (snd (digits acc s)) = true.
Proof.
  revert acc. induction s as [|c s IH]; intros acc.
  - exists "". repeat split; reflexivity.
  - simpl. destruct (isdigit c) eqn:Hc.
    + destruct (IH (10 * acc + digit_value c)) as (d & E & Hd & Hv & Ht).
      exists (String c d). rewrite string_app_cons, <- E. simpl. rewrite Hc, Hd.
      repeat split; assumption.
    + exists "". simpl. rewrite Hc. repeat split; reflexivity.
Qed.

Lemma digits_value_nonneg (d : string) (acc : Z) :
  all_digits d = true -> 0 <= acc -> 0 <= digits_value acc d.
Proof.
  revert acc. induction d as [|c d IH]; intros acc Hd Hacc; [exact Hacc|].
  simpl in Hd. apply andb_true_iff in Hd as [Hc Hd]. simpl. apply IH; [exact Hd|].
  unfold isdigit in Hc. apply andb_true_iff in Hc as [H1 H2].
  apply N.leb_le in H1. unfold digit_value. lia.
Qed.

Lemma extract_int_unsigned (s : string) (c : ascii) (r : string) :
  sign (skipws s) = (false, String c r) -> isdigit c = true ->
  extract_int s =
    let '(m, rest) := digits 0 (String c r) in
    if in_int_range m then Some (m, rest) else None.
Proof.
  intros Hs Hc. unfold extract_int. rewrite Hs, Hc. reflexivity.
Qed.

Lemma extract_int_negative (s : string) (c : ascii) (r : string) :
  sign (skipws s) = (true, String c r) -> isdigit c = true ->
  extract_int s =
    let '(m, rest) := digits 0 (String c r) in
    if in_int_range (- m) then Some (- m, rest) else None.
Proof.
  intros Hs Hc. unfold extract_int. rewrite Hs, Hc. reflexivity.
Qed.

Lemma all_digits_nonempty (r : string) :
  negb (String.eqb r "") && all_digits r = true ->
  exists c r', r = String c r' /\ isdigit c = true /\ all_digits r = true.
Proof.
  destruct r as [|c r']; [discriminate|]. simpl. intros H.
  exists c, r'. apply andb_true_iff in H as [Hc Hr]. rewrite Hc, Hr. auto.
Qed.

(** Extraction accepts optional whitespace, a decimal integer an [int]
    holds, and stops in front of what follows it. *)
Lemma extract_int_intro (ws d tail : string) :
  all_space ws = true -> is_int_token d = true ->
  starts_nondigit tail = true ->
  extract_int (ws +:+ d +:+ tail) = Some (decimal_value d, tail).
Proof.
  intros Hws Hd Ht. apply andb_true_iff in Hd as [Hd Hr].
  destruct d as [|c r]; [discriminate|].
  unfold is_decimal_integer in Hd. unfold decimal_value in *.
  destruct (Ascii.eqb c "-" || Ascii.eqb c "+") eqn:Hsign.
  - destruct (sign_not_digit c Hsign) as [_ Hsp].
    destruct (all_digits_nonempty r Hd) as (c' & r' & -> & Hc' & Hall).
    destruct (Ascii.eqb c "-") eqn:Hminus.
    + rewrite (extract_int_negative _ c' (r' +:+ tail)); [|  |exact Hc'].
      * rewrite <- string_app_cons, digits_app by assumption.
        cbv zeta. simpl fst. rewrite Hr. reflexivity.
      * rewrite skipws_app_space by exact Hws.
        rewrite !string_app_cons. cbn [skipws]. rewrite Hsp.
        unfold sign. rewrite Hminus. reflexivity.
    + simpl in Hsign. rewrite Hsign in Hr.
      rewrite (extract_int_unsigned _ c' (r' +:+ tail)); [|  |exact Hc'].
      * rewrite <- string_app_cons, digits_app by assumption.
        cbv zeta. rewrite Hr, Hsign. reflexivity.
      * rewrite skipws_app_space by exact Hws.
        rewrite !string_app_cons. cbn [skipws]. rewrite Hsp.
        unfold sign. rewrite Hminus, Hsign. reflexivity.
  - apply orb_false_iff in Hsign as [Hminus Hplus].
    rewrite Hminus, Hplus in Hr.
    assert (Hc : isdigit c = true)
      by (simpl in Hd; apply andb_true_iff in Hd; tauto).
    rewrite (extract_int_unsigned _ c (r +:+ tail)); [|  |exact Hc].
    + rewrite <- string_app_cons, digits_app by assumption.
      cbv zeta. rewrite Hr, Hminus, Hplus. reflexivity.
    + rewrite skipws_app_space by exact Hws.
      rewrite string_app_cons. cbn [skipws].
      rewrite (isdigit_not_space c Hc). unfold sign.
      rewrite Hminus, Hplus. reflexivity.
Qed.

Lemma digits_split_digit (c : ascii) (r : string) (acc : Z) :
  isdigit c = true ->
  exists d, String c r = String c d +:+ snd (digits acc (String c r)) /\
            all_digits (String c d) = true /\
            fst (digits acc (String c r)) = digits_value acc (String c d) /\
            starts_nondigit (snd (digits acc (String c r))) = true.
Proof.
  intros Hc. simpl. rewrite Hc.
  destruct (digits_split r (10 * acc + digit_value c)) as (d & E & Hd & Hv & Ht).
  exists d. rewrite string_app_cons, <- E, Hd. auto.
Qed.

(** Whatever extraction accepts has that shape. *)
Lemma extract_int_elim (s : string) (v : Z) (rest : string) :
  extract_int s = Some (v, rest) ->
  exists ws d, s = ws +:+ d +:+ rest /\ all_space ws = true /\
               is_int_token d = true /\ decimal_value d = v /\
               starts_nondigit rest = true.
Proof.
  intros H. destruct (skipws_split s) as (ws & E & Hws).
  exists ws. unfold extract_int in H.
  destruct (skipws s) as [|c r]; [discriminate|].
  unfold sign in H. unfold is_int_token, is_decimal_integer, decimal_value.
  destruct (Ascii.eqb c "-") eqn:Hminus; [|destruct (Ascii.eqb c "+") eqn:Hplus].
  - destruct r as [|c' r']; [discriminate|].
    destruct (isdigit c') eqn:Hc'; [|discriminate].
    destruct (digits_split_digit c' r' 0 Hc') as (d & Ed & Hd & Hv & Ht).
    destruct (digits 0 (String c' r')) as [m rest0]. cbn [fst snd] in Ed, Hv, Ht.
    destruct (in_int_range (- m)) eqn:Hr; [|discriminate].
    injection H as <- <-. exists (String c (String c' d)).
    rewrite Hminus. cbn [orb negb String.eqb andb]. rewrite Hd, <- Hv, Hr.
    rewrite E, Ed. auto.
  - destruct r as [|c' r']; [discriminate|].
    destruct (isdigit c') eqn:Hc'; [|discriminate].
    destruct (digits_split_digit c' r' 0 Hc') as (d & Ed & Hd & Hv & Ht).
    destruct (digits 0 (String c' r')) as [m rest0]. cbn [fst snd] in Ed, Hv, Ht.
    destruct (in_int_range m) eqn:Hr; [|discriminate].
    injection H as <- <-. exists (String c (String c' d)).
    rewrite Hminus, Hplus. cbn [orb negb String.eqb andb]. rewrite Hd, <- Hv, Hr.
    rewrite E, Ed. auto.
  - destruct (isdigit c) eqn:Hc; [|discriminate].
    destruct (digits_split_digit c r 0 Hc) as (d & Ed & Hd & Hv & Ht).
    destruct (digits 0 (String c r)) as [m rest0]. cbn [fst snd] in Ed, Hv, Ht.
    destruct (in_int_range m) eqn:Hr; [|discriminate].
    injection H as <- <-. exists (String c d).
    rewrite Hminus, Hplus. cbn [orb]. rewrite Hd, <- Hv, Hr.
    rewrite E, Ed. auto.
Qed.

(** A successful extraction reads at least one character. *)
Lemma extract_int_shorter (s : string) (v : Z) (rest : string) :
  extract_int s = Some (v, rest) ->
  (String.length rest < String.length s)%nat.
Proof.
  intros H. destruct (extract_int_elim s v rest H) as (ws & d & -> & _ & Hd & _).
  rewrite !string_length_app.
  destruct d as [|c d]; [discriminate|]. simpl. lia.
Qed.

(** * The filter factories *)

Lemma prefix_refl (p : string) : String.prefix p p = true.
Proof. rewrite <- (string_app_nil_r p) at 2. apply prefix_app. Qed.

Lemma eqb_prefix (s p : string) :
  String.prefix p s = false -> String.eqb s p = false.
Proof.
  intros H. destruct (String.eqb_spec s p) as [->|]; [|reflexivity].
  rewrite prefix_refl in H. discriminate.
Qed.

Lemma substr_gt (r : string) : substr ("GT" +:+ r) 2 = Ok r.
Proof. exact (substr_app "GT" r). Qed.

(** The if-chain on a token that begins with GT. *)
Lemma pipeline_create_filter_gt (r : string) :
  Pipeline.create_filter ("GT" +:+ r) =
    match extract_int r with
    | None => Throw (invalid_argument "Invalid GT filter format")
    | Some (threshold, _) => Ok (GreaterThanFilter threshold)
    end.
Proof.
  unfold Pipeline.create_filter, rfind_at_0.
  rewrite (prefix_app "GT" r), substr_gt. reflexivity.
Qed.

(** The registry holds its three entries in key order. *)
Lemma registry_entries :
  Registry.registry =
    [("EVEN", Registry.even_factory); ("GT", Registry.gt_factory);
     ("ODD", Registry.odd_factory)].
Proof. reflexivity. Qed.

Lemma registry_create_filter_unfold (token : string) :
  Registry.create_filter token =
    if String.prefix "EVEN" token then Ok EvenFilter
    else if String.prefix "GT" token then Registry.gt_factory token
    else if String.prefix "ODD" token then Ok OddFilter
    else Throw (invalid_argument ("Unknown filter: " +:+ token)).
Proof. reflexivity. Qed.

Lemma registry_create_filter_gt (r : string) :
  Registry.create_filter ("GT" +:+ r) =
    match extract_int r with
    | None =>
        Throw (invalid_argument ("Invalid GT filter format: " +:+ "GT" +:+ r))
    | Some (threshold, _) => Ok (GreaterThanFilter threshold)
    end.
Proof.
  rewrite registry_create_filter_unfold. unfold Registry.gt_factory.
  rewrite (prefix_app "GT" r), substr_gt. reflexivity.
Qed.

Lemma gt_form_iff (r : string) (f : INumberFilter) :
  gt_form ("GT" +:+ r) f <->
  exists t rest, extract_int r = Some (t, rest) /\ f = GreaterThanFilter t.
Proof.
  split.
  - intros (ws & d & tail & E & Hws & Hd & Ht & ->).
    apply (inj (String.append "GT")) in E as ->.
    exists (decimal_value d), tail. split; [|reflexivity].
    apply extract_int_intro; assumption.
  - intros (t & rest & H & ->).
    destruct (extract_int_elim r t rest H) as (ws & d & -> & Hws & Hd & <- & Ht).
    exists ws, d, rest. auto.
Qed.

Lemma gt_form_prefix (token : string) (f : INumberFilter) :
  gt_form token f -> exists r, token = "GT" +:+ r.
Proof. intros (ws & d & tail & -> & _). eauto. Qed.

(** The tokens the if-chain factory builds a filter for. *)
Lemma pipeline_create_filter_ok (token : string) (f : INumberFilter) :
  Pipeline.create_filter token = Ok f <->
  (token = "EVEN" /\ f = EvenFilter) \/
  (token = "ODD" /\ f = OddFilter) \/
  gt_form token f.
Proof.
  split.
  - intros H.
    destruct (String.eqb_spec token "EVEN") as [->|NE];
      [left; injection H as <-; auto|].
    destruct (String.eqb_spec token "ODD") as [->|NO];
      [right; left; injection H as <-; auto|].
    right; right.
    destruct (String.prefix "GT" token) eqn:HG.
    + apply prefix_split in HG as [r ->]. apply gt_form_iff.
      rewrite pipeline_create_filter_gt in H.
      destruct (extract_int r) as [[t rest]|]; [|discriminate].
      injection H as <-. eauto.
    + unfold Pipeline.create_filter, rfind_at_0 in H.
      apply String.eqb_neq in NE, NO. rewrite NE, NO, HG in H. discriminate.
  - intros [[-> ->]|[[-> ->]|G]]; [reflexivity|reflexivity|].
    destruct (gt_form_prefix _ _ G) as [r ->].
    apply gt_form_iff in G as (t & rest & E & ->).
    rewrite pipeline_create_filter_gt, E. reflexivity.
Qed.

(** The tokens the registry factory builds a filter for. *)
Lemma registry_create_filter_ok (token : string) (f : INumberFilter) :
  Registry.create_filter token = Ok f <->
  (String.prefix "EVEN" token = true /\ f = EvenFilter) \/
  (String.prefix "ODD" token = true /\ f = OddFilter) \/
  gt_form token f.
Proof.
  split.
  - intros H.
    destruct (String.prefix "EVEN" token) eqn:HE.
    { rewrite registry_create_filter_unfold, HE in H.
      injection H as <-. auto. }
    destruct (String.prefix "GT" token) eqn:HG.
    { apply prefix_split in HG as [r ->]. right; right. apply gt_form_iff.
      rewrite registry_create_filter_gt in H.
      destruct (extract_int r) as [[t rest]|]; [|discriminate].
      injection H as <-. eauto. }
    rewrite registry_create_filter_unfold, HE, HG in H.
    destruct (String.prefix "ODD" token) eqn:HO; [|discriminate].
    injection H as <-. auto.
  - intros [[HE ->]|[[HO ->]|G]].
    + rewrite registry_create_filter_unfold, HE. reflexivity.
    + apply prefix_split in HO as [r ->].
      rewrite registry_create_filter_unfold, (prefix_app "ODD" r). reflexivity.
    + destruct (gt_form_prefix _ _ G) as [r ->].
      apply gt_form_iff in G as (t & rest & E & ->).
      rewrite registry_create_filter_gt, E. reflexivity.
Qed.

(** C1 (as amended). The if-chain factory of number_pipeline.cpp builds a
    filter exactly for the token EVEN (the even-filter), the token ODD (the
    odd-filter) and a token made of GT, optional whitespace, an optionally
    signed decimal integer that an [int] holds, and any further text that
    does not go on with a digit (the greater-than-filter with that integer
    as threshold). The registry factory of part_000 builds the same
    greater-than-filters, and the even-filter and the odd-filter for every
    token that begins with EVEN and ODD. No other token yields a filter. *)
Theorem create_filter_grammar (token : string) (f : INumberFilter) :
  (Pipeline.create_filter token = Ok f <->
     (token = "EVEN" /\ f = EvenFilter) \/
     (token = "ODD" /\ f = OddFilter) \/
     gt_form token f) /\
  (Registry.create_filter token = Ok f <->
     (String.prefix "EVEN" token = true /\ f = EvenFilter) \/
     (String.prefix "ODD" token = true /\ f = OddFilter) \/
     gt_form token f).
Proof.
  split.
  - apply pipeline_create_filter_ok.
  - apply registry_create_filter_ok.
Qed.

(** C1 as stated fails: the registry factory builds the even-filter for
    EVENx, and both factories build a greater-than-filter for a token in
    which GT is followed by a blank, an integer and more text; neither
    token is in the grammar of the specification. *)
Lemma create_filter_outside_grammar :
  Registry.create_filter "EVENx" = Ok EvenFilter /\
  spec_create_filter "EVENx" = None /\
  Pipeline.create_filter "GT 5abc" = Ok (GreaterThanFilter 5) /\
  Registry.create_filter "GT 5abc" = Ok (GreaterThanFilter 5) /\
  spec_create_filter "GT 5abc" = None.
Proof. repeat split; reflexivity. Qed.

(** The message of the if-chain factory for a bad GT token is the fixed text
    "Invalid GT filter format": the token does not occur in it, and a
    different bad token gives the very same exception. The registry
    factory appends the token, and both factories append it to "Unknown
    filter: ". *)
Lemma pipeline_invalid_gt_omits_token :
  Pipeline.create_filter "GTabc" =
    Throw (invalid_argument "Invalid GT filter format") /\
  String.index 0 "GTabc" "Invalid GT filter format" = None /\
  Pipeline.create_filter "GT+-1" = Pipeline.create_filter "GTabc" /\
  Registry.create_filter "GTabc" =
    Throw (invalid_argument "Invalid GT filter format: GTabc") /\
  Pipeline.create_filter "XYZ" = Throw (invalid_argument "Unknown filter: XYZ") /\
  Registry.create_filter "XYZ" = Throw (invalid_argument "Unknown filter: XYZ").
Proof. repeat split; reflexivity. Qed.

(** When the factories throw, and what: the token is of no known form
    ("Unknown filter: " and the token), or it begins with GT and no [int]
    can be extracted from what follows. Nothing else is thrown; [substr]
    in particular never is out of range. *)
Lemma pipeline_create_filter_throws (token : string) (e : exception) :
  Pipeline.create_filter token = Throw e <->
  (token <> "EVEN" /\ token <> "ODD" /\ String.prefix "GT" token = false /\
   e = invalid_argument ("Unknown filter: " +:+ token)) \/
  (exists r, token = "GT" +:+ r /\ extract_int r = None /\
             e = invalid_argument "Invalid GT filter format").
Proof.
  split.
  - intros H.
    destruct (String.eqb_spec token "EVEN") as [->|NE]; [discriminate|].
    destruct (String.eqb_spec token "ODD") as [->|NO]; [discriminate|].
    destruct (String.prefix "GT" token) eqn:HG.
    + apply prefix_split in HG as [r ->]. right. exists r.
      rewrite pipeline_create_filter_gt in H.
      destruct (extract_int r) as [[t rest]|]; [discriminate|].
      injection H as <-. auto.
    + left. unfold Pipeline.create_filter, rfind_at_0 in H.
      pose proof NE as NE'. pose proof NO as NO'.
      apply String.eqb_neq in NE', NO'. rewrite NE', NO', HG in H.
      injection H as <-. auto.
  - intros [(NE & NO & HG & ->)|(r & -> & E & ->)].
    + unfold Pipeline.create_filter, rfind_at_0.
      apply String.eqb_neq in NE, NO. rewrite NE, NO, HG. reflexivity.
    + rewrite pipeline_create_filter_gt, E. reflexivity.
Qed.

Lemma registry_create_filter_throws (token : string) (e : exception) :
  Registry.create_filter token = Throw e <->
  (String.prefix "EVEN" token = false /\ String.prefix "ODD" token = false /\
   String.prefix "GT" token = false /\
   e = invalid_argument ("Unknown filter: " +:+ token)) \/
  (exists r, token = "GT" +:+ r /\ extract_int r = None /\
             e = invalid_argument ("Invalid GT filter format: " +:+ token)).
Proof.
  split.
  - intros H.
    destruct (String.prefix "EVEN" token) eqn:HE.
    { rewrite registry_create_filter_unfold, HE in H. discriminate. }
    destruct (String.prefix "GT" token) eqn:HG.
    { apply prefix_split in HG as [r ->]. right. exists r.
      rewrite registry_create_filter_gt in H.
      destruct (extract_int r) as [[t rest]|]; [discriminate|].
      injection H as <-. auto. }
    rewrite registry_create_filter_unfold, HE, HG in H.
    destruct (String.prefix "ODD" token) eqn:HO; [discriminate|].
    injection H as <-. auto.
  - intros [(HE & HO & HG & ->)|(r & -> & E & ->)].
    + rewrite registry_create_filter_unfold, HE, HG, HO. reflexivity.
    + rewrite registry_create_filter_gt, E. reflexivity.
Qed.

(** C2 (as amended). A factory signals an error exactly when the token is
    of none of its forms, and then it is the unknown-filter error, whose
    message is "Unknown filter: " and the token, or when the token begins
    with GT and no [int] can be extracted from what follows, and then it is
    the invalid-argument error (in the registry factory with the message
    "Invalid GT filter format: " and the token). The forms are EVEN, ODD
    and the GT prefix for the if-chain factory, and the prefixes EVEN, GT
    and ODD for the registry factory. GTabc gives the invalid-argument
    error and XYZ the unknown-filter error in both; no other error is
    raised. *)
Theorem create_filter_errors (token : string) :
  match Pipeline.create_filter token with
  | Ok f =>
      token = "EVEN" \/ token = "ODD" \/
      exists r t rest, token = "GT" +:+ r /\ extract_int r = Some (t, rest)
  | Throw e =>
      (token <> "EVEN" /\ token <> "ODD" /\
       String.prefix "GT" token = false /\
       e = invalid_argument ("Unknown filter: " +:+ token)) \/
      (exists r, token = "GT" +:+ r /\ extract_int r = None /\
                 kind_of e = invalid_filter_argument)
  end /\
  match Registry.create_filter token with
  | Ok f =>
      String.prefix "EVEN" token = true \/ String.prefix "ODD" token = true \/
      exists r t rest, token = "GT" +:+ r /\ extract_int r = Some (t, rest)
  | Throw e =>
      (String.prefix "EVEN" token = false /\
       String.prefix "ODD" token = false /\
       String.prefix "GT" token = false /\
       e = invalid_argument ("Unknown filter: " +:+ token)) \/
      (exists r, token = "GT" +:+ r /\ extract_int r = None /\
                 e = invalid_argument ("Invalid GT filter format: " +:+ token))
  end /\
  kind_of (invalid_argument ("Unknown filter: " +:+ token)) = unknown_filter /\
  (exists e, Pipeline.create_filter "GTabc" = Throw e /\
             kind_of e = invalid_filter_argument) /\
  (exists e, Registry.create_filter "GTabc" = Throw e /\
             kind_of e = invalid_filter_argument) /\
  Pipeline.create_filter "XYZ" = Throw (invalid_argument "Unknown filter: XYZ") /\
  Registry.create_filter "XYZ" = Throw (invalid_argument "Unknown filter: XYZ").
Proof.
  split; [|split; [|split; [|split; [|split; [|split]]]]].
  - destruct (Pipeline.create_filter token) as [f|e] eqn:H.
    + apply pipeline_create_filter_ok in H
        as [[-> _]|[[-> _]|G]]; [auto|auto|].
      destruct (gt_form_prefix _ _ G) as [r ->].
      apply gt_form_iff in G as (t & rest & E & _). right; right. eauto.
    + apply pipeline_create_filter_throws in H
        as [H|(r & -> & E & ->)]; [left; exact H|].
      right. exists r. auto.
  - destruct (Registry.create_filter token) as [f|e] eqn:H.
    + apply registry_create_filter_ok in H
        as [[HE _]|[[HO _]|G]]; [auto|auto|].
      destruct (gt_form_prefix _ _ G) as [r ->].
      apply gt_form_iff in G as (t & rest & E & _). right; right. eauto.
    + apply registry_create_filter_throws in H. exact H.
  - unfold kind_of. rewrite prefix_app. reflexivity.
  - eexists. split; reflexivity.
  - eexists. split; reflexivity.
  - reflexivity.
  - reflexivity.
Qed.

(** C2 as stated fails: EVENx is of no form of the grammar the
    specification gives, and the if-chain factory signals the
    unknown-filter error for it, but the registry factory signals none;
    and neither factory signals an error for GT5abc, where what follows GT
    is no decimal integer. *)
Lemma registry_no_error_for_longer_token :
  spec_create_filter "EVENx" = None /\
  String.prefix "GT" "EVENx" = false /\
  Pipeline.create_filter "EVENx" =
    Throw (invalid_argument "Unknown filter: EVENx") /\
  Registry.create_filter "EVENx" = Ok EvenFilter /\
  is_decimal_integer "5abc" = false /\
  Pipeline.create_filter "GT5abc" = Ok (GreaterThanFilter 5) /\
  Registry.create_filter "GT5abc" = Ok (GreaterThanFilter 5).
Proof. repeat split; reflexivity. Qed.

(** C10 (as amended). The two factories agree (filters that keep the same
    integers, or errors of the same kind) on a token exactly when it is
    not EVEN or ODD followed by further characters; on such a token the
    if-chain factory throws the unknown-filter error and the registry
    factory builds the even-filter or the odd-filter. *)
Theorem factories_agree_iff (token : string) :
  agree (Pipeline.create_filter token) (Registry.create_filter token) <->
  proper_prefix "EVEN" token || proper_prefix "ODD" token = false.
Proof.
  destruct (String.prefix "EVEN" token) eqn:HE.
  { apply prefix_split in HE as [r ->]. destruct r as [|c r].
    - split; [intros _; reflexivity|intros _ n; reflexivity].
    - split; [intros H; vm_compute in H; destruct H|discriminate]. }
  destruct (String.prefix "GT" token) eqn:HG.
  { apply prefix_split in HG as [r ->].
    rewrite pipeline_create_filter_gt, registry_create_filter_gt.
    destruct (extract_int r) as [[t rest]|].
    - split; [intros _; reflexivity|intros _ n; reflexivity].
    - split; [intros _; reflexivity|intros _; reflexivity]. }
  destruct (String.prefix "ODD" token) eqn:HO.
  { apply prefix_split in HO as [r ->]. destruct r as [|c r].
    - split; [intros _; reflexivity|intros _ n; reflexivity].
    - split; [intros H; vm_compute in H; destruct H|discriminate]. }
  unfold proper_prefix. rewrite HE, HO.
  rewrite registry_create_filter_unfold, HE, HG, HO.
  unfold Pipeline.create_filter, rfind_at_0.
  rewrite (eqb_prefix _ _ HE), (eqb_prefix _ _ HO), HG.
  split; [intros _; reflexivity|intros _; reflexivity].
Qed.

(** C10 as stated fails: for EVENx (and ODDs) the if-chain factory throws
    the unknown-filter error while the registry factory builds a filter. *)
Lemma factories_disagree :
  Pipeline.create_filter "EVENx" =
    Throw (invalid_argument "Unknown filter: EVENx") /\
  Registry.create_filter "EVENx" = Ok EvenFilter /\
  Pipeline.create_filter "ODDs" =
    Throw (invalid_argument "Unknown filter: ODDs") /\
  Registry.create_filter "ODDs" = Ok OddFilter /\
  ~ agree (Pipeline.create_filter "EVENx") (Registry.create_filter "EVENx").
Proof. repeat split; try reflexivity. intros H. exact H. Qed.

(** * The filters *)

(** C6. [GreaterThanFilter(t).keep(n)] is true exactly when [n > t], for
    negative values as well; both factories turn the token GT-5 into the
    filter with threshold -5, which keeps exactly the integers above -5. *)
Theorem greater_than_keeps_strictly_greater :
  (forall t n : Z, keep (GreaterThanFilter t) n = true <-> n > t) /\
  Pipeline.create_filter "GT-5" = Ok (GreaterThanFilter (-5)) /\
  Registry.create_filter "GT-5" = Ok (GreaterThanFilter (-5)) /\
  (forall n : Z, keep (GreaterThanFilter (-5)) n = true <-> n > -5) /\
  keep (GreaterThanFilter (-5)) (-5) = false /\
  keep (GreaterThanFilter (-5)) (-4) = true.
Proof.
  assert (H : forall t n : Z, keep (GreaterThanFilter t) n = true <-> n > t).
  { intros t n. cbn [keep]. apply Z.gtb_gt. }
  split; [exact H|]. split; [reflexivity|]. split; [reflexivity|].
  split; [exact (H (-5))|]. split; reflexivity.
Qed.

Lemma keep_even_iff (n : Z) : keep EvenFilter n = true <-> Z.rem n 2 = 0.
Proof. cbn [keep]. apply Z.eqb_eq. Qed.

Lemma keep_odd_iff (n : Z) :
  keep OddFilter n = true <-> Z.rem n 2 = 1 \/ Z.rem n 2 = -1.
Proof.
  cbn [keep]. rewrite negb_true_iff, Z.eqb_neq.
  destruct (Z.le_gt_cases 0 n) as [H|H].
  - pose proof (Z.rem_bound_pos_pos n 2 ltac:(lia) H) as Hp.
    split; lia.
  - assert (Hn : 0 <= Z.rem (- n) 2 < 2)
      by (apply Z.rem_bound_pos_pos; lia).
    rewrite Z.rem_opp_l in Hn by lia. split; lia.
Qed.

Lemma keep_even_negb_odd (n : Z) : keep EvenFilter n = negb (keep OddFilter n).
Proof. cbn [keep]. rewrite negb_involutive. reflexivity. Qed.

(** C7. On every integer the even-filter and the odd-filter answer with
    opposite booleans: both test the remainder of the division by 2
    truncated towards zero, which is 0 for even numbers and 1 or -1 for odd
    ones; -3 is odd and -4 is even. *)
Theorem even_odd_opposite :
  (forall n : Z, keep EvenFilter n = negb (keep OddFilter n)) /\
  (forall n : Z, keep EvenFilter n <> keep OddFilter n) /\
  (forall n : Z, keep EvenFilter n = true <-> Z.rem n 2 = 0) /\
  (forall n : Z, keep OddFilter n = true <-> Z.rem n 2 = 1 \/ Z.rem n 2 = -1) /\
  keep OddFilter (-3) = true /\ keep EvenFilter (-3) = false /\
  keep EvenFilter (-4) = true /\ keep OddFilter (-4) = false.
Proof.
  split; [exact keep_even_negb_odd|].
  split; [intros n; rewrite keep_even_negb_odd; destruct (keep OddFilter n); discriminate|].
  split; [exact keep_even_iff|].
  split; [exact keep_odd_iff|].
  repeat split; reflexivity.
Qed.

(** * The processor *)

Lemma bind_run {A B : Type} (m : M A) (k : A -> M B) (w : world) :
  (m ≫= k) w =
    match m w with
    | (Ok a, w') => k a w'
    | (Throw e, w') => (Throw e, w')
    end.
Proof. reflexivity. Qed.

Lemma for_each_cons {A : Type} (x : A) (l : list A) (body : A -> M unit)
    (w : world) :
  for_each (x :: l) body w =
    match body x w with
    | (Ok _, w') => for_each l body w'
    | (Throw e, w') => (Throw e, w')
    end.
Proof. reflexivity. Qed.

(** A virtual call returns normally and leaves [std::cerr] alone; it adds
    itself to the calls made. *)
Lemma call_on_number_effect (obs : nat) (number : Z) (w : world) :
  exists w', call_on_number obs number w = (Ok tt, w') /\
             calls w' = calls w ++ [on_number_call obs number] /\
             cerr w' = cerr w.
Proof.
  unfold call_on_number. destruct (objects w !! obs) as [o|].
  - destruct (on_number o number) as [o' text]. eexists. split; [reflexivity|].
    split; reflexivity.
  - eexists. split; [reflexivity|]. split; reflexivity.
Qed.

Lemma call_on_finished_effect (obs : nat) (w : world) :
  exists w', call_on_finished obs w = (Ok tt, w') /\
             calls w' = calls w ++ [on_finished_call obs] /\
             cerr w' = cerr w.
Proof.
  unfold call_on_finished. destruct (objects w !! obs) as [o|].
  - destruct (on_finished o) as [o' text]. eexists. split; [reflexivity|].
    split; reflexivity.
  - eexists. split; [reflexivity|]. split; reflexivity.
Qed.

(** The inner range-for: [on_number] on every observer, in the order of the
    vector. *)
Lemma broadcast_number (observers : list nat) (number : Z) (w : world) :
  exists w',
    for_each observers (fun obs => call_on_number obs number) w = (Ok tt, w') /\
    calls w' =
      calls w ++ List.map (fun obs => on_number_call obs number) observers /\
    cerr w' = cerr w.
Proof.
  revert w. induction observers as [|obs observers IH]; intros w.
  - exists w. rewrite app_nil_r. auto.
  - destruct (call_on_number_effect obs number w) as (w1 & E1 & C1 & R1).
    destruct (IH w1) as (w' & E & C & R).
    exists w'. rewrite for_each_cons, E1, E, C, C1, R, R1, <- app_assoc. auto.
Qed.

(** The closing range-for: [on_finished] on every observer, in the order of
    the vector. *)
Lemma broadcast_finished (observers : list nat) (w : world) :
  exists w',
    for_each observers call_on_finished w = (Ok tt, w') /\
    calls w' = calls w ++ List.map on_finished_call observers /\
    cerr w' = cerr w.
Proof.
  revert w. induction observers as [|obs observers IH]; intros w.
  - exists w. rewrite app_nil_r. auto.
  - destruct (call_on_finished_effect obs w) as (w1 & E1 & C1 & R1).
    destruct (IH w1) as (w' & E & C & R).
    exists w'. rewrite for_each_cons, E1, E, C, C1, R, R1, <- app_assoc. auto.
Qed.

(** The outer range-for over the numbers read. *)
Lemma pass_calls (f : INumberFilter) (observers : list nat)
    (numbers : list Z) (w : world) :
  exists w',
    for_each numbers (fun number =>
      if keep f number
      then for_each observers (fun obs => call_on_number obs number)
      else mret tt) w = (Ok tt, w') /\
    calls w' = calls w ++ number_calls f observers numbers /\
    cerr w' = cerr w.
Proof.
  revert w. induction numbers as [|number numbers IH]; intros w.
  - exists w. unfold number_calls. simpl. rewrite app_nil_r. auto.
  - rewrite for_each_cons. unfold number_calls. cbn [flat_map].
    fold (number_calls f observers numbers).
    destruct (keep f number).
    + destruct (broadcast_number observers number w) as (w1 & E1 & C1 & R1).
      destruct (IH w1) as (w' & E & C & R).
      exists w'. rewrite E1, E, C, C1, R, R1, <- app_assoc. auto.
    + destruct (IH w) as (w' & E & C & R).
      exists w'. change (@mret M M_ret unit tt w) with (Ok tt, w).
      cbv beta iota. rewrite E, C, R. auto.
Qed.

(** [run] when the reader returns: the pass over the numbers, then the
    completion calls; no exception leaves it. *)
Lemma run_returns (reader : string -> M (list Z)) (f : INumberFilter)
    (observers : list nat) (filename : string) (w w1 : world)
    (numbers : list Z) :
  reader filename w = (Ok numbers, w1) ->
  exists w',
    run reader f observers filename w = (Ok tt, w') /\
    calls w' =
      calls w1 ++ number_calls f observers numbers ++
      List.map on_finished_call observers /\
    cerr w' = cerr w1.
Proof.
  intros Hread. unfold run. rewrite bind_run, Hread.
  destruct (pass_calls f observers numbers w1) as (w2 & E2 & C2 & R2).
  destruct (broadcast_finished observers w2) as (w' & E & C & R).
  exists w'. rewrite bind_run, E2, E, C, C2, R, R2, <- app_assoc. auto.
Qed.

(** [run] when the reader throws: the exception leaves [run] before any
    observer is called. *)
Lemma run_throws (reader : string -> M (list Z)) (f : INumberFilter)
    (observers : list nat) (filename : string) (w w1 : world)
    (e : exception) :
  reader filename w = (Throw e, w1) ->
  run reader f observers filename w = (Throw e, w1).
Proof. intros Hread. unfold run. rewrite bind_run, Hread. reflexivity. Qed.

Lemma finished_calls_app (a b : list call) :
  finished_calls (a ++ b) = finished_calls a ++ finished_calls b.
Proof.
  induction a as [|[obs n|obs] a IH]; simpl; [reflexivity|exact IH|].
  rewrite IH. reflexivity.
Qed.

Lemma finished_calls_number_calls (f : INumberFilter) (observers : list nat)
    (numbers : list Z) :
  finished_calls (number_calls f observers numbers) = [].
Proof.
  assert (Hone : forall n : Z,
    finished_calls (List.map (fun obs => on_number_call obs n) observers) = []).
  { intros n. induction observers as [|obs observers IHo]; [reflexivity|exact IHo]. }
  unfold number_calls. induction numbers as [|n numbers IH]; [reflexivity|].
  cbn [flat_map]. rewrite finished_calls_app, IH, app_nil_r.
  destruct (keep f n); [apply Hone|reflexivity].
Qed.

Lemma finished_calls_completion (observers : list nat) :
  finished_calls (List.map on_finished_call observers) = observers.
Proof.
  induction observers as [|obs observers IH]; [reflexivity|].
  simpl. rewrite IH. reflexivity.
Qed.

(** C4. Whatever the reader returns (the empty sequence too) and whatever
    the filter keeps, [run] ends with the calls of [on_finished] on the
    registered observers, in registration order, one call for each entry of
    the vector; they come after every call made for the numbers, none of
    which is an [on_finished]. When the reader throws, [run] is left with
    the reader's exception. *)
Theorem on_finished_once_each (reader : string -> M (list Z))
    (f : INumberFilter) (observers : list nat) (filename : string)
    (w : world) :
  match reader filename w with
  | (Ok numbers, w1) =>
      exists (w' : world) (pass : list call),
        run reader f observers filename w = (Ok tt, w') /\
        calls w' = calls w1 ++ pass ++ List.map on_finished_call observers /\
        finished_calls pass = [] /\
        finished_calls (pass ++ List.map on_finished_call observers) =
          observers
  | (Throw e, w1) => run reader f observers filename w = (Throw e, w1)
  end.
Proof.
  destruct (reader filename w) as [[numbers|e] w1] eqn:Hread.
  - destruct (run_returns reader f observers filename w w1 numbers Hread)
      as (w' & E & C & _).
    exists w', (number_calls f observers numbers).
    rewrite finished_calls_app, finished_calls_number_calls,
      finished_calls_completion.
    auto.
  - exact (run_throws reader f observers filename w w1 e Hread).
Qed.

Lemma wrap_int_succ (x : Z) : wrap_int (wrap_int x + 1) = wrap_int (x + 1).
Proof.
  unfold wrap_int.
  replace ((x + 2 ^ 31) mod 2 ^ 32 - 2 ^ 31 + 1 + 2 ^ 31)
    with ((x + 2 ^ 31) mod 2 ^ 32 + 1) by lia.
  rewrite Z.add_mod_idemp_l by lia.
  replace (x + 2 ^ 31 + 1) with (x + 1 + 2 ^ 31) by lia. reflexivity.
Qed.

(** One kept value with the two observers of [main]: it is printed on a
    line of its own, then counted. *)
Lemma broadcast_print_count (number : Z) (co ce : string) (cs : list call)
    (a : Z) :
  for_each [0%nat; 1%nat] (fun obs => call_on_number obs number)
    {| objects := [PrintObserver; CountObserver (wrap_int a)];
       cout := co; cerr := ce; calls := cs |} =
  (Ok tt,
   {| objects := [PrintObserver; CountObserver (wrap_int (wrap_int a + 1))];
      cout := (co +:+ to_string number +:+ endl) +:+ "";
      cerr := ce;
      calls := (cs ++ [on_number_call 0 number]) ++ [on_number_call 1 number] |}).
Proof. reflexivity. Qed.

(** The completion calls with the two observers of [main]: the summary
    line. *)
Lemma finished_print_count (co ce : string) (cs : list call) (c : Z) :
  for_each [0%nat; 1%nat] call_on_finished
    {| objects := [PrintObserver; CountObserver c];
       cout := co; cerr := ce; calls := cs |} =
  (Ok tt,
   {| objects := [PrintObserver; CountObserver c];
      cout := (co +:+ "") +:+
              "Total numbers passed filter: " +:+ to_string c +:+ endl;
      cerr := ce;
      calls := (cs ++ [on_finished_call 0]) ++ [on_finished_call 1] |}).
Proof. reflexivity. Qed.

(** The pass over the numbers with the two observers of [main]: the kept
    values are printed, one on a line, and counted. *)
Lemma pass_print_count (f : INumberFilter) (numbers : list Z) (w : world)
    (a : Z) :
  objects w = [PrintObserver; CountObserver (wrap_int a)] ->
  exists w',
    for_each numbers (fun number =>
      if keep f number
      then for_each [0%nat; 1%nat] (fun obs => call_on_number obs number)
      else mret tt) w = (Ok tt, w') /\
    objects w' =
      [PrintObserver;
       CountObserver
         (wrap_int (a + Z.of_nat (length (List.filter (keep f) numbers))))] /\
    cout w' = cout w +:+ kept_lines (List.filter (keep f) numbers) /\
    cerr w' = cerr w.
Proof.
  revert w a. induction numbers as [|number numbers IH]; intros w a Hw.
  - exists w. simpl. rewrite Z.add_0_r, string_app_nil_r. auto.
  - rewrite for_each_cons. cbn [List.filter]. destruct (keep f number).
    + destruct w as [objs co ce cs]. cbn [objects cout cerr] in *. subst objs.
      rewrite broadcast_print_count, wrap_int_succ.
      match goal with
      | |- context [for_each numbers _ ?w1] =>
          destruct (IH w1 (a + 1) eq_refl) as (w' & E & O & C & R)
      end.
      exists w'. rewrite E, O, C, R. cbn [objects cout cerr length kept_lines fold_right].
      rewrite string_app_nil_r, !string_app_assoc.
      repeat split; try reflexivity. rewrite Nat2Z.inj_succ.
      replace (a + 1 + Z.of_nat (length (List.filter (keep f) numbers)))
        with (a + Z.succ (Z.of_nat (length (List.filter (keep f) numbers))))
        by lia.
      reflexivity.
    + change (@mret M M_ret unit tt w) with (Ok tt, w). cbv beta iota.
      exact (IH w a Hw).
Qed.

(** * The program *)

(** [run] with the two observers of [main] when the reader returns. *)
Lemma run_print_count (reader : string -> M (list Z)) (f : INumberFilter)
    (filename : string) (w w1 : world) (numbers : list Z) :
  reader filename w = (Ok numbers, w1) ->
  objects w1 = [PrintObserver; CountObserver 0] ->
  exists w',
    run reader f [0%nat; 1%nat] filename w = (Ok tt, w') /\
    cout w' = cout w1 +:+ report f numbers /\
    cerr w' = cerr w1.
Proof.
  intros Hread Hobjs. unfold run. rewrite bind_run, Hread.
  destruct (pass_print_count f numbers w1 0 Hobjs) as (w2 & E & O & C & R).
  rewrite bind_run, E. destruct w2 as [objs co ce cs].
  cbn [objects cout cerr] in O, C, R. subst objs.
  rewrite finished_print_count. eexists. split; [reflexivity|].
  cbn [cout cerr]. rewrite C, R, string_app_nil_r, string_app_assoc.
  split; reflexivity.
Qed.

Lemma main_with_unfold (create_filter : string -> result INumberFilter)
    (read_numbers : string -> M (list Z)) (prog token filename : string) :
  main_with create_filter read_numbers [prog; token; filename] initial_world =
    match create_filter token with
    | Throw e =>
        (Ok 2, {| objects := []; cout := "";
                  cerr := "" +:+ "Error: " +:+ what e +:+ endl; calls := [] |})
    | Ok f =>
        match run read_numbers f [0%nat; 1%nat] filename world_of_main with
        | (Ok _, w) => (Ok 0, w)
        | (Throw e, w) =>
            (Ok 2, {| objects := objects w; cout := cout w;
                      cerr := cerr w +:+ "Error: " +:+ what e +:+ endl;
                      calls := calls w |})
        end
    end.
Proof.
  unfold main_with, try_catch. rewrite bind_run. unfold lift.
  destruct (create_filter token) as [f|e]; [|reflexivity].
  match goal with
  | |- (let (r, w') := ?t in _) = _ =>
      change t
        with (match run read_numbers f [0%nat; 1%nat] filename world_of_main with
              | (Ok _, w) => (@Ok Z 0, w)
              | (Throw e, w) => (Throw e, w)
              end)
  end.
  destruct (run read_numbers f [0%nat; 1%nat] filename world_of_main)
    as [[[]|e] w]; reflexivity.
Qed.

(** What a run of number_pipeline.cpp with two arguments leaves behind. *)
Lemma pipeline_outcome (fs : filesystem) (prog token filename : string) :
  execute (Pipeline.main fs [prog; token; filename]) =
    match Pipeline.create_filter token with
    | Throw e =>
        {| exit_code := Ok 2; stdout := "";
           stderr := "Error: " +:+ what e +:+ endl |}
    | Ok f =>
        match fs filename with
        | Some content =>
            {| exit_code := Ok 0; stdout := report f (read_stream content);
               stderr := "" |}
        | None =>
            {| exit_code := Ok 0; stdout := report f [];
               stderr := "Error: Cannot open file " +:+ filename +:+ endl |}
        end
    end.
Proof.
  unfold execute, Pipeline.main. rewrite main_with_unfold.
  destruct (Pipeline.create_filter token) as [f|e]; [|reflexivity].
  destruct (fs filename) as [content|] eqn:Hfs.
  - destruct (run_print_count (Pipeline.read_numbers fs) f filename
                world_of_main world_of_main (read_stream content))
      as (w' & E & C & R);
      [unfold Pipeline.read_numbers; rewrite Hfs; reflexivity|reflexivity|].
    rewrite E, C, R. reflexivity.
  - destruct (run_print_count (Pipeline.read_numbers fs) f filename
                world_of_main
                {| objects := [PrintObserver; CountObserver 0]; cout := "";
                   cerr := "" +:+ "Error: Cannot open file " +:+ filename +:+ endl;
                   calls := [] |} [])
      as (w' & E & C & R);
      [unfold Pipeline.read_numbers; rewrite Hfs; reflexivity|reflexivity|].
    rewrite E, C, R. reflexivity.
Qed.

(** What a run of part_000 with two arguments leaves behind. *)
Lemma registry_outcome (fs : filesystem) (prog token filename : string) :
  execute (Registry.main fs [prog; token; filename]) =
    match Registry.create_filter token with
    | Throw e =>
        {| exit_code := Ok 2; stdout := "";
           stderr := "Error: " +:+ what e +:+ endl |}
    | Ok f =>
        match fs filename with
        | Some content =>
            {| exit_code := Ok 0; stdout := report f (read_stream content);
               stderr := "" |}
        | None =>
            {| exit_code := Ok 2; stdout := "";
               stderr := "Error: Cannot open file: " +:+ filename +:+ endl |}
        end
    end.
Proof.
  unfold execute, Registry.main. rewrite main_with_unfold.
  destruct (Registry.create_filter token) as [f|e]; [|reflexivity].
  destruct (fs filename) as [content|] eqn:Hfs.
  - destruct (run_print_count (Registry.read_numbers fs) f filename
                world_of_main world_of_main (read_stream content))
      as (w' & E & C & R);
      [unfold Registry.read_numbers; rewrite Hfs; reflexivity|reflexivity|].
    rewrite E, C, R. reflexivity.
  - rewrite (run_throws (Registry.read_numbers fs) f [0%nat; 1%nat] filename
               world_of_main world_of_main
               (runtime_error ("Cannot open file: " +:+ filename)));
      [reflexivity|].
    unfold Registry.read_numbers. rewrite Hfs. reflexivity.
Qed.

(** C3 (as amended). With two arguments, a filter token the factory
    rejects ends either version with exit code 2 and the line "Error: " and
    the message on standard error, nothing on standard output. With a token
    it accepts and a source that opens, both versions print the kept values
    and the count summary and exit with 0. With a source that does not
    open, part_000 exits with 2 and the line "Error: Cannot open file: "
    and the name; number_pipeline.cpp writes "Error: Cannot open file " and
    the name on standard error, prints the summary of an empty source and
    exits with 0. *)
Theorem main_outcomes (fs : filesystem) (prog token filename : string) :
  execute (Pipeline.main fs [prog; token; filename]) =
    match Pipeline.create_filter token with
    | Throw e =>
        {| exit_code := Ok 2; stdout := "";
           stderr := "Error: " +:+ what e +:+ endl |}
    | Ok f =>
        match fs filename with
        | Some content =>
            {| exit_code := Ok 0; stdout := report f (read_stream content);
               stderr := "" |}
        | None =>
            {| exit_code := Ok 0; stdout := report f [];
               stderr := "Error: Cannot open file " +:+ filename +:+ endl |}
        end
    end /\
  execute (Registry.main fs [prog; token; filename]) =
    match Registry.create_filter token with
    | Throw e =>
        {| exit_code := Ok 2; stdout := "";
           stderr := "Error: " +:+ what e +:+ endl |}
    | Ok f =>
        match fs filename with
        | Some content =>
            {| exit_code := Ok 0; stdout := report f (read_stream content);
               stderr := "" |}
        | None =>
            {| exit_code := Ok 2; stdout := "";
               stderr := "Error: Cannot open file: " +:+ filename +:+ endl |}
        end
    end.
Proof.
  split.
  - apply pipeline_outcome.
  - apply registry_outcome.
Qed.

(** C3 as stated fails: number_pipeline.cpp run on a file that cannot be
    opened exits with 0, not 2. *)
Lemma pipeline_missing_file_exits_0 :
  execute (Pipeline.main (single_file "numbers.txt" "3 4 5 6 7 8")
             ["number_pipeline"; "EVEN"; "missing.txt"]) =
  {| exit_code := Ok 0;
     stdout := "Total numbers passed filter: 0" +:+ endl;
     stderr := "Error: Cannot open file missing.txt" +:+ endl |}.
Proof. reflexivity. Qed.

(** C5. [run] makes its calls in this order: for every number read, in
    arrival order, if the filter keeps it, [on_number] on every registered
    observer in registration order; then the completion calls. For the
    source 3 4 5 6 7 8 and the token EVEN both versions print the lines 4,
    6, 8 and "Total numbers passed filter: 3", and nothing else. *)
Theorem kept_values_in_arrival_order :
  (forall (reader : string -> M (list Z)) (f : INumberFilter)
          (observers : list nat) (filename : string) (w : world),
     match reader filename w with
     | (Ok numbers, w1) =>
         exists w' : world,
           run reader f observers filename w = (Ok tt, w') /\
           calls w' =
             calls w1 ++ number_calls f observers numbers ++
             List.map on_finished_call observers
     | (Throw e, w1) => run reader f observers filename w = (Throw e, w1)
     end) /\
  number_calls EvenFilter [0%nat; 1%nat] [3; 4; 5; 6; 7; 8] =
    [on_number_call 0 4; on_number_call 1 4; on_number_call 0 6;
     on_number_call 1 6; on_number_call 0 8; on_number_call 1 8] /\
  (forall prog filename : string,
     execute (Pipeline.main (single_file filename "3 4 5 6 7 8")
                [prog; "EVEN"; filename]) =
     {| exit_code := Ok 0;
        stdout := "4" +:+ endl +:+ "6" +:+ endl +:+ "8" +:+ endl +:+
                  "Total numbers passed filter: 3" +:+ endl;
        stderr := "" |}) /\
  (forall prog filename : string,
     execute (Registry.main (single_file filename "3 4 5 6 7 8")
                [prog; "EVEN"; filename]) =
     {| exit_code := Ok 0;
        stdout := "4" +:+ endl +:+ "6" +:+ endl +:+ "8" +:+ endl +:+
                  "Total numbers passed filter: 3" +:+ endl;
        stderr := "" |}).
Proof.
  split; [|split; [reflexivity|split]].
  - intros reader f observers filename w.
    destruct (reader filename w) as [[numbers|e] w1] eqn:Hread.
    + destruct (run_returns reader f observers filename w w1 numbers Hread)
        as (w' & E & C & _).
      exists w'. auto.
    + exact (run_throws reader f observers filename w w1 e Hread).
  - intros prog filename. rewrite pipeline_outcome. unfold single_file.
    rewrite String.eqb_refl. reflexivity.
  - intros prog filename. rewrite registry_outcome. unfold single_file.
    rewrite String.eqb_refl. reflexivity.
Qed.

(** ** Runs that start in a state an earlier run has left *)

(** A virtual call on the object at the end of [pre]. *)
Lemma call_on_number_at (pre post : list INumberObserver)
    (o : INumberObserver) (number : Z) (w : world) :
  objects w = pre ++ o :: post ->
  call_on_number (length pre) number w =
    (Ok tt,
     {| objects := pre ++ fst (on_number o number) :: post;
        cout := cout w +:+ snd (on_number o number);
        cerr := cerr w;
        calls := calls w ++ [on_number_call (length pre) number] |}).
Proof.
  intros Hw. unfold call_on_number.
  rewrite Hw, list_lookup_middle by reflexivity.
  destruct (on_number o number) as [o' text]. cbn [fst snd].
  rewrite insert_app_r_alt, Nat.sub_diag by lia. reflexivity.
Qed.

Lemma call_on_finished_at (pre post : list INumberObserver)
    (o : INumberObserver) (w : world) :
  objects w = pre ++ o :: post ->
  call_on_finished (length pre) w =
    (Ok tt,
     {| objects := pre ++ fst (on_finished o) :: post;
        cout := cout w +:+ snd (on_finished o);
        cerr := cerr w;
        calls := calls w ++ [on_finished_call (length pre)] |}).
Proof.
  intros Hw. unfold call_on_finished.
  rewrite Hw, list_lookup_middle by reflexivity.
  destruct (on_finished o) as [o' text]. cbn [fst snd].
  rewrite insert_app_r_alt, Nat.sub_diag by lia. reflexivity.
Qed.

Lemma length_snoc_observer (pre : list INumberObserver) (o : INumberObserver) :
  length (pre ++ [o]) = S (length pre).
Proof. rewrite length_app. cbn [length]. lia. Qed.

(** One kept value with a print observer and a count observer that stand
    behind other objects: the objects in front are not touched. *)
Lemma broadcast_print_count_at (pre : list INumberObserver) (number : Z)
    (w : world) (a : Z) :
  objects w = pre ++ [PrintObserver; CountObserver (wrap_int a)] ->
  exists w',
    for_each [length pre; S (length pre)]
      (fun obs => call_on_number obs number) w = (Ok tt, w') /\
    objects w' = pre ++ [PrintObserver; CountObserver (wrap_int (a + 1))] /\
    cout w' = cout w +:+ to_string number +:+ endl /\
    cerr w' = cerr w.
Proof.
  intros Hw. rewrite for_each_cons.
  rewrite (call_on_number_at pre [CountObserver (wrap_int a)] PrintObserver
             number w Hw).
  rewrite for_each_cons, <- (length_snoc_observer pre PrintObserver).
  erewrite (call_on_number_at (pre ++ [PrintObserver]) []
              (CountObserver (wrap_int a)));
    [|cbn [objects on_number fst]; rewrite <- app_assoc; reflexivity].
  eexists. split; [reflexivity|].
  cbn [objects cout cerr on_number fst snd].
  rewrite wrap_int_succ, string_app_nil_r, <- app_assoc. auto.
Qed.

Lemma finished_print_count_at (pre : list INumberObserver) (w : world)
    (c : Z) :
  objects w = pre ++ [PrintObserver; CountObserver c] ->
  exists w',
    for_each [length pre; S (length pre)] call_on_finished w = (Ok tt, w') /\
    objects w' = pre ++ [PrintObserver; CountObserver c] /\
    cout w' =
      cout w +:+ "Total numbers passed filter: " +:+ to_string c +:+ endl /\
    cerr w' = cerr w.
Proof.
  intros Hw. rewrite for_each_cons.
  rewrite (call_on_finished_at pre [CountObserver c] PrintObserver w Hw).
  rewrite for_each_cons, <- (length_snoc_observer pre PrintObserver).
  erewrite (call_on_finished_at (pre ++ [PrintObserver]) [] (CountObserver c));
    [|cbn [objects on_finished fst]; rewrite <- app_assoc; reflexivity].
  eexists. split; [reflexivity|].
  cbn [objects cout cerr on_finished fst snd].
  rewrite string_app_nil_r, <- app_assoc. auto.
Qed.

Lemma pass_print_count_at (pre : list INumberObserver) (f : INumberFilter)
    (numbers : list Z) (w : world) (a : Z) :
  objects w = pre ++ [PrintObserver; CountObserver (wrap_int a)] ->
  exists w',
    for_each numbers (fun number =>
      if keep f number
      then for_each [length pre; S (length pre)]
             (fun obs => call_on_number obs number)
      else mret tt) w = (Ok tt, w') /\
    objects w' =
      pre ++
      [PrintObserver;
       CountObserver
         (wrap_int (a + Z.of_nat (length (List.filter (keep f) numbers))))] /\
    cout w' = cout w +:+ kept_lines (List.filter (keep f) numbers) /\
    cerr w' = cerr w.
Proof.
  revert w a. induction numbers as [|number numbers IH]; intros w a Hw.
  - exists w. cbn. rewrite Z.add_0_r, string_app_nil_r. auto.
  - rewrite for_each_cons. cbn [List.filter]. destruct (keep f number).
    + destruct (broadcast_print_count_at pre number w a Hw)
        as (w1 & E1 & O1 & C1 & R1).
      destruct (IH w1 (a + 1) O1) as (w' & E & O & C & R).
      exists w'. rewrite E1, E, O, C, C1, R, R1.
      cbn [length kept_lines fold_right].
      rewrite !string_app_assoc, Nat2Z.inj_succ.
      replace (a + 1 + Z.of_nat (length (List.filter (keep f) numbers)))
        with (a + Z.succ (Z.of_nat (length (List.filter (keep f) numbers))))
        by lia.
      auto.
    + change (@mret M M_ret unit tt w) with (Ok tt, w). cbv beta iota.
      exact (IH w a Hw).
Qed.

(** [run] with a fresh print observer and a fresh count observer behind
    whatever objects there are: it adds the report to standard output. *)
Lemma run_print_count_at (pre : list INumberObserver)
    (reader : string -> M (list Z)) (f : INumberFilter) (filename : string)
    (w w1 : world) (numbers : list Z) :
  reader filename w = (Ok numbers, w1) ->
  objects w1 = pre ++ [PrintObserver; CountObserver 0] ->
  exists w',
    run reader f [length pre; S (length pre)] filename w = (Ok tt, w') /\
    cout w' = cout w1 +:+ report f numbers /\
    cerr w' = cerr w1.
Proof.
  intros Hread Hobjs. unfold run. rewrite bind_run, Hread.
  destruct (pass_print_count_at pre f numbers w1 0 Hobjs)
    as (w2 & E2 & O2 & C2 & R2).
  destruct (finished_print_count_at pre w2 _ O2) as (w' & E & O & C & R).
  exists w'. rewrite bind_run, E2, E, C, C2, R, R2.
  unfold report. rewrite Z.add_0_l, !string_app_assoc. auto.
Qed.

(** [main] started in any state: the two observers it creates stand behind
    the objects that exist. *)
Lemma main_with_from (create_filter : string -> result INumberFilter)
    (read_numbers : string -> M (list Z)) (prog token filename : string)
    (w : world) :
  main_with create_filter read_numbers [prog; token; filename] w =
    match create_filter token with
    | Throw e =>
        (Ok 2, {| objects := objects w; cout := cout w;
                  cerr := cerr w +:+ "Error: " +:+ what e +:+ endl;
                  calls := calls w |})
    | Ok f =>
        match run read_numbers f
                [length (objects w); S (length (objects w))] filename
                {| objects := objects w ++ [PrintObserver; CountObserver 0];
                   cout := cout w; cerr := cerr w; calls := calls w |} with
        | (Ok _, w') => (Ok 0, w')
        | (Throw e, w') =>
            (Ok 2, {| objects := objects w'; cout := cout w';
                      cerr := cerr w' +:+ "Error: " +:+ what e +:+ endl;
                      calls := calls w' |})
        end
    end.
Proof.
  unfold main_with, try_catch. rewrite bind_run. unfold lift.
  destruct (create_filter token) as [f|e]; [|reflexivity].
  match goal with
  | |- (let (r, w') := ?t in _) = _ =>
      change t
        with (match run read_numbers f
                      [length (objects w);
                       length (objects w ++ [PrintObserver])] filename
                      {| objects :=
                           (objects w ++ [PrintObserver]) ++ [CountObserver 0];
                         cout := cout w; cerr := cerr w; calls := calls w |} with
              | (Ok _, w) => (@Ok Z 0, w)
              | (Throw e, w) => (Throw e, w)
              end)
  end.
  rewrite length_snoc_observer, <- app_assoc. cbn [app].
  destruct (run read_numbers f _ filename _) as [[[]|e] w']; reflexivity.
Qed.

(** What a run of number_pipeline.cpp adds to standard output and returns,
    in whatever state it starts. *)
Lemma pipeline_main_from (fs : filesystem) (prog token filename : string)
    (w : world) :
  exists w',
    Pipeline.main fs [prog; token; filename] w =
      (Ok (match Pipeline.create_filter token with
           | Ok _ => 0
           | Throw _ => 2
           end), w') /\
    cout w' =
      cout w +:+
      match Pipeline.create_filter token with
      | Ok f =>
          report f (match fs filename with
                    | Some content => read_stream content
                    | None => []
                    end)
      | Throw _ => ""
      end.
Proof.
  unfold Pipeline.main. rewrite main_with_from.
  destruct (Pipeline.create_filter token) as [f|e].
  - set (w0 := {| objects := objects w ++ [PrintObserver; CountObserver 0];
                  cout := cout w; cerr := cerr w; calls := calls w |}).
    destruct (fs filename) as [content|] eqn:Hfs.
    + destruct (run_print_count_at (objects w) (Pipeline.read_numbers fs) f
                  filename w0 w0 (read_stream content))
        as (w' & E & C & _);
        [unfold Pipeline.read_numbers; rewrite Hfs; reflexivity|reflexivity|].
      rewrite E. exists w'. split; [reflexivity|]. exact C.
    + destruct (run_print_count_at (objects w) (Pipeline.read_numbers fs) f
                  filename w0
                  {| objects := objects w0; cout := cout w0;
                     cerr := cerr w0 +:+ "Error: Cannot open file " +:+
                             filename +:+ endl;
                     calls := calls w0 |} [])
        as (w' & E & C & _);
        [unfold Pipeline.read_numbers; rewrite Hfs; reflexivity|reflexivity|].
      rewrite E. exists w'. split; [reflexivity|]. exact C.
  - eexists. split; [reflexivity|]. cbn [cout]. symmetry.
    apply string_app_nil_r.
Qed.

(** What a run of part_000 adds to standard output and returns, in
    whatever state it starts. *)
Lemma registry_main_from (fs : filesystem) (prog token filename : string)
    (w : world) :
  exists w',
    Registry.main fs [prog; token; filename] w =
      (Ok (match Registry.create_filter token, fs filename with
           | Ok _, Some _ => 0
           | _, _ => 2
           end), w') /\
    cout w' =
      cout w +:+
      match Registry.create_filter token, fs filename with
      | Ok f, Some content => report f (read_stream content)
      | _, _ => ""
      end.
Proof.
  unfold Registry.main. rewrite main_with_from.
  destruct (Registry.create_filter token) as [f|e].
  - set (w0 := {| objects := objects w ++ [PrintObserver; CountObserver 0];
                  cout := cout w; cerr := cerr w; calls := calls w |}).
    destruct (fs filename) as [content|] eqn:Hfs.
    + destruct (run_print_count_at (objects w) (Registry.read_numbers fs) f
                  filename w0 w0 (read_stream content))
        as (w' & E & C & _);
        [unfold Registry.read_numbers; rewrite Hfs; reflexivity|reflexivity|].
      rewrite E. exists w'. split; [reflexivity|]. exact C.
    + rewrite (run_throws (Registry.read_numbers fs) f _ filename w0 w0
                 (runtime_error ("Cannot open file: " +:+ filename)));
        [|unfold Registry.read_numbers; rewrite Hfs; reflexivity].
      eexists. split; [reflexivity|]. cbn [cout]. symmetry.
      apply string_app_nil_r.
  - eexists. split; [reflexivity|]. cbn [cout]. symmetry.
    apply string_app_nil_r.
Qed.

(** C9. Two runs with the same filter token on sources of the same content
    (or both unreadable) print the same on standard output and return the
    same code, also when the second run starts in the state the first has
    left, with the objects and the output of the first still there: [main]
    creates a print observer and a count observer of its own, the count
    starting at 0, and nothing of an earlier run reaches them. What both
    print is the kept values of the source, one on a line in file order,
    and the summary with their number; it is the same whatever the program
    name, the file name and the rest of the file system. *)
Theorem two_runs_print_the_same (fs1 fs2 : filesystem)
    (prog1 prog2 token file1 file2 : string) (w : world) :
  fs1 file1 = fs2 file2 ->
  (exists (w1 w2 : world),
     let code := match Pipeline.create_filter token with
                 | Ok _ => 0
                 | Throw _ => 2
                 end in
     let printed := match Pipeline.create_filter token with
                    | Ok f =>
                        report f (match fs1 file1 with
                                  | Some content => read_stream content
                                  | None => []
                                  end)
                    | Throw _ => ""
                    end in
     Pipeline.main fs1 [prog1; token; file1] w = (Ok code, w1) /\
     Pipeline.main fs2 [prog2; token; file2] w1 = (Ok code, w2) /\
     cout w1 = cout w +:+ printed /\
     cout w2 = cout w1 +:+ printed) /\
  (exists (w1 w2 : world),
     let code := match Registry.create_filter token, fs1 file1 with
                 | Ok _, Some _ => 0
                 | _, _ => 2
                 end in
     let printed := match Registry.create_filter token, fs1 file1 with
                    | Ok f, Some content => report f (read_stream content)
                    | _, _ => ""
                    end in
     Registry.main fs1 [prog1; token; file1] w = (Ok code, w1) /\
     Registry.main fs2 [prog2; token; file2] w1 = (Ok code, w2) /\
     cout w1 = cout w +:+ printed /\
     cout w2 = cout w1 +:+ printed).
Proof.
  intros Hsame. split.
  - destruct (pipeline_main_from fs1 prog1 token file1 w) as (w1 & E1 & C1).
    destruct (pipeline_main_from fs2 prog2 token file2 w1) as (w2 & E2 & C2).
    rewrite <- Hsame in C2. exists w1, w2. cbv zeta. auto.
  - destruct (registry_main_from fs1 prog1 token file1 w) as (w1 & E1 & C1).
    destruct (registry_main_from fs2 prog2 token file2 w1) as (w2 & E2 & C2).
    rewrite <- Hsame in E2, C2. exists w1, w2. cbv zeta. auto.
Qed.

Lemma two_runs_print_the_same_witness :
  (exists (w1 w2 : world),
     let code := match Pipeline.create_filter "ODD" with
                 | Ok _ => 0
                 | Throw _ => 2
                 end in
     let printed := match Pipeline.create_filter "ODD" with
                    | Ok f =>
                        report f (match single_file "a.txt" "3 4 5" "a.txt" with
                                  | Some content => read_stream content
                                  | None => []
                                  end)
                    | Throw _ => ""
                    end in
     Pipeline.main (single_file "a.txt" "3 4 5") ["p"; "ODD"; "a.txt"]
       {| objects := [CountObserver 7]; cout := "earlier" +:+ endl;
          cerr := ""; calls := [on_finished_call 0] |} = (Ok code, w1) /\
     Pipeline.main (single_file "b.txt" "3 4 5") ["q"; "ODD"; "b.txt"] w1 =
       (Ok code, w2) /\
     cout w1 = ("earlier" +:+ endl) +:+ printed /\
     cout w2 = cout w1 +:+ printed) /\
  (exists (w1 w2 : world),
     let code := match Registry.create_filter "ODD",
                       single_file "a.txt" "3 4 5" "a.txt" with
                 | Ok _, Some _ => 0
                 | _, _ => 2
                 end in
     let printed := match Registry.create_filter "ODD",
                          single_file "a.txt" "3 4 5" "a.txt" with
                    | Ok f, Some content => report f (read_stream content)
                    | _, _ => ""
                    end in
     Registry.main (single_file "a.txt" "3 4 5") ["p"; "ODD"; "a.txt"]
       {| objects := [CountObserver 7]; cout := "earlier" +:+ endl;
          cerr := ""; calls := [on_finished_call 0] |} = (Ok code, w1) /\
     Registry.main (single_file "b.txt" "3 4 5") ["q"; "ODD"; "b.txt"] w1 =
       (Ok code, w2) /\
     cout w1 = ("earlier" +:+ endl) +:+ printed /\
     cout w2 = cout w1 +:+ printed).
Proof.
  apply (two_runs_print_the_same (single_file "a.txt" "3 4 5")
           (single_file "b.txt" "3 4 5") "p" "q" "ODD" "a.txt" "b.txt"
           {| objects := [CountObserver 7]; cout := "earlier" +:+ endl;
              cerr := ""; calls := [on_finished_call 0] |}).
  reflexivity.
Defined.

(** * The reader *)

(** The loop stops by itself: any fuel above the length of the stream
    gives the same numbers. *)
Lemma read_loop_fuel (n m : nat) (s : string) :
  (String.length s < n)%nat -> (String.length s < m)%nat ->
  read_loop n s = read_loop m s.
Proof.
  revert m s. induction n as [|n IH]; intros m s Hn Hm; [lia|].
  destruct m as [|m]; [lia|]. simpl.
  destruct (extract_int s) as [[v rest]|] eqn:E; [|reflexivity].
  apply extract_int_shorter in E. f_equal. apply IH; lia.
Qed.

Lemma read_loop_stream (n : nat) (s : string) :
  (String.length s < n)%nat -> read_loop n s = read_stream s.
Proof. intros H. apply read_loop_fuel; [exact H|lia]. Qed.

Lemma read_stream_unfold (s : string) :
  read_stream s =
    match extract_int s with
    | None => []
    | Some (v, rest) => v :: read_stream rest
    end.
Proof.
  destruct (extract_int s) as [[v rest]|] eqn:E.
  - unfold read_stream at 1. cbn [read_loop]. rewrite E. f_equal.
    apply read_loop_stream. exact (extract_int_shorter s v rest E).
  - unfold read_stream. cbn [read_loop]. rewrite E. reflexivity.
Qed.

(** A token ends at whitespace or at the end of the text. *)
Lemma span_token_split (s : string) :
  s = fst (span_token s) +:+ snd (span_token s) /\
  starts_nondigit (snd (span_token s)) = true.
Proof.
  induction s as [|c s [E Hd]]; [split; reflexivity|].
  simpl. destruct (isspace c) eqn:Hc.
  - split; [reflexivity|]. simpl.
    destruct (isdigit c) eqn:Hdig; [|reflexivity].
    apply isdigit_not_space in Hdig. congruence.
  - destruct (span_token s) as [t rest]. simpl in *.
    rewrite string_app_cons, <- E. auto.
Qed.

(** Where the next whitespace-separated token is an integer token, the
    extraction reads exactly that token. *)
Lemma extract_int_token (s : string) :
  is_int_token (fst (span_token (skipws s))) = true ->
  extract_int s =
    Some (decimal_value (fst (span_token (skipws s))),
          snd (span_token (skipws s))).
Proof.
  intros Ht. destruct (skipws_split s) as (ws & E & Hws).
  destruct (span_token_split (skipws s)) as [Es Hd].
  rewrite E at 1. rewrite Es at 1.
  apply extract_int_intro; assumption.
Qed.

Lemma int_token_nonempty (t : string) :
  is_int_token t = true -> (0 < String.length t)%nat.
Proof. destruct t; [discriminate|simpl; lia]. Qed.

Lemma span_token_shorter (s : string) :
  is_int_token (fst (span_token (skipws s))) = true ->
  (String.length (snd (span_token (skipws s))) < String.length s)%nat.
Proof.
  intros Ht. destruct (skipws_split s) as (ws & E & _).
  destruct (span_token_split (skipws s)) as [Es _].
  apply int_token_nonempty in Ht.
  rewrite E at 2. rewrite Es at 2. rewrite !string_length_app. lia.
Qed.

Lemma spec_scan_fuel (n m : nat) (s : string) :
  (String.length s < n)%nat -> (String.length s < m)%nat ->
  spec_scan n s = spec_scan m s.
Proof.
  revert m s. induction n as [|n IH]; intros m s Hn Hm; [lia|].
  destruct m as [|m]; [lia|]. simpl.
  pose proof (span_token_shorter s) as Hlt.
  destruct (span_token (skipws s)) as [t rest]. simpl in Hlt.
  destruct (is_int_token t); [|reflexivity].
  specialize (Hlt eq_refl). rewrite (IH m rest) by lia. reflexivity.
Qed.

(** The numbers read are the integer tokens in front of the content, and
    then whatever the loop still extracts from the place where the first
    other token stands. *)
Lemma read_loop_spec_scan (n : nat) (s : string) :
  (String.length s < n)%nat ->
  read_loop n s = fst (spec_scan n s) ++ read_stream (snd (spec_scan n s)).
Proof.
  revert s. induction n as [|n IH]; intros s Hn; [lia|].
  cbn [spec_scan].
  pose proof (span_token_shorter s) as Hlt.
  pose proof (extract_int_token s) as Hex.
  destruct (span_token (skipws s)) as [t rest]. cbn [fst snd] in Hlt, Hex.
  destruct (is_int_token t).
  - specialize (Hlt eq_refl). specialize (Hex eq_refl).
    cbn [read_loop]. rewrite Hex, (IH rest) by lia.
    destruct (spec_scan n rest) as [values unread]. reflexivity.
  - cbn [fst snd app]. apply read_loop_stream. exact Hn.
Qed.

Lemma read_stream_spec (content : string) :
  read_stream content =
    spec_read_numbers content ++ read_stream (spec_unread content).
Proof.
  unfold spec_read_numbers, spec_unread.
  rewrite <- read_loop_spec_scan by lia. reflexivity.
Qed.

(** C8 (as amended). For a source that opens, [read_numbers] of either
    version returns, without an error and without touching the streams,
    the values of the maximal prefix of whitespace-separated integer tokens
    (optionally signed decimal integers that an [int] holds), in file
    order; when the extraction fails where the first other token stands,
    nothing more; otherwise that token begins (possibly after a sign) with
    digits, and the integer extracted there and whatever the loop extracts
    after it follow. *)
Theorem read_numbers_integer_prefix (fs : filesystem)
    (filename content : string) (w : world) :
  fs filename = Some content ->
  Pipeline.read_numbers fs filename w = (Ok (read_stream content), w) /\
  Registry.read_numbers fs filename w = (Ok (read_stream content), w) /\
  read_stream content =
    spec_read_numbers content ++
    match extract_int (spec_unread content) with
    | None => []
    | Some (v, rest) => v :: read_stream rest
    end.
Proof.
  intros Hfs. unfold Pipeline.read_numbers, Registry.read_numbers.
  rewrite Hfs. split; [reflexivity|]. split; [reflexivity|].
  rewrite <- read_stream_unfold. apply read_stream_spec.
Qed.

Lemma read_numbers_integer_prefix_witness :
  Pipeline.read_numbers (single_file "numbers.txt" "1 -2 x 4") "numbers.txt"
    initial_world =
    (Ok (read_stream "1 -2 x 4"), initial_world) /\
  Registry.read_numbers (single_file "numbers.txt" "1 -2 x 4") "numbers.txt"
    initial_world =
    (Ok (read_stream "1 -2 x 4"), initial_world) /\
  read_stream "1 -2 x 4" =
    spec_read_numbers "1 -2 x 4" ++
    match extract_int (spec_unread "1 -2 x 4") with
    | None => []
    | Some (v, rest) => v :: read_stream rest
    end.
Proof.
  apply (read_numbers_integer_prefix (single_file "numbers.txt" "1 -2 x 4")
           "numbers.txt" "1 -2 x 4" initial_world).
  reflexivity.
Defined.

(** C8 as stated fails: of the content 1 2 3.5 4 the loop returns 1, 2 and
    3, the integer part of a token that is no integer; of 12-5, one token
    that is no integer, it returns 12 and -5. *)
Lemma read_numbers_beyond_integer_tokens :
  Pipeline.read_numbers (single_file "numbers.txt" "1 2 3.5 4") "numbers.txt"
    initial_world = (Ok [1; 2; 3], initial_world) /\
  Registry.read_numbers (single_file "numbers.txt" "1 2 3.5 4") "numbers.txt"
    initial_world = (Ok [1; 2; 3], initial_world) /\
  spec_read_numbers "1 2 3.5 4" = [1; 2] /\
  read_stream "12-5" = [12; -5] /\
  spec_read_numbers "12-5" = [].
Proof. repeat split; reflexivity. Qed.

(** * Further properties *)

(** Formatted extraction of an [int] succeeds exactly on optional
    whitespace followed by an optionally signed decimal integer that an
    [int] holds; it returns that integer and leaves the text after its last
    digit unread. *)
Theorem extract_int_iff (s : string) (v : Z) (rest : string) :
  extract_int s = Some (v, rest) <->
  exists ws d : string,
    s = ws +:+ d +:+ rest /\ all_space ws = true /\
    is_int_token d = true /\ decimal_value d = v /\
    starts_nondigit rest = true.
Proof.
  split.
  - apply extract_int_elim.
  - intros (ws & d & -> & Hws & Hd & <- & Ht).
    apply extract_int_intro; assumption.
Qed.

(** With any number of arguments other than two, both versions write the
    two usage lines on standard error, print nothing and exit with 1. *)
Theorem usage_error (fs : filesystem) (argv : list string) :
  length argv <> 3%nat ->
  execute (Pipeline.main fs argv) =
    {| exit_code := Ok 1; stdout := ""; stderr := usage |} /\
  execute (Registry.main fs argv) =
    {| exit_code := Ok 1; stdout := ""; stderr := usage |}.
Proof.
  intros Hargc.
  destruct argv as [|a0 [|a1 [|a2 [|a3 argv]]]];
    try (split; reflexivity).
  simpl in Hargc. congruence.
Qed.

Lemma usage_error_witness :
  execute (Pipeline.main (single_file "numbers.txt" "1 2")
             ["number_pipeline"; "EVEN"]) =
    {| exit_code := Ok 1; stdout := ""; stderr := usage |} /\
  execute (Registry.main (single_file "numbers.txt" "1 2")
             ["number_pipeline"; "EVEN"]) =
    {| exit_code := Ok 1; stdout := ""; stderr := usage |}.
Proof.
  apply (usage_error (single_file "numbers.txt" "1 2")
           ["number_pipeline"; "EVEN"]).
  simpl. lia.
Defined.

(** ** Printing and reading back *)

Lemma digits_value_uint_acc (d : Decimal.uint) (p : positive) :
  digits_value (Zpos p) (DecimalString.NilEmpty.string_of_uint d) =
  Zpos (Pos.of_uint_acc d p).
Proof.
  revert p.
  induction d as [|d IH|d IH|d IH|d IH|d IH|d IH|d IH|d IH|d IH|d IH];
    intros p; [reflexivity|..];
    cbn [DecimalString.NilEmpty.string_of_uint digits_value Pos.of_uint_acc];
    rewrite <- IH; f_equal; unfold digit_value; cbn [N_of_ascii N_of_digits];
    rewrite ?Pos2Z.inj_add, ?Pos2Z.inj_mul; cbn; lia.
Qed.

Lemma digits_value_uint (d : Decimal.uint) :
  digits_value 0 (DecimalString.NilEmpty.string_of_uint d) =
  Z.of_N (Pos.of_uint d).
Proof.
  induction d as [|d IH|d IH|d IH|d IH|d IH|d IH|d IH|d IH|d IH|d IH];
    [reflexivity|exact IH|..];
    cbn [DecimalString.NilEmpty.string_of_uint digits_value Pos.of_uint];
    apply digits_value_uint_acc.
Qed.

Lemma all_digits_uint (d : Decimal.uint) :
  all_digits (DecimalString.NilEmpty.string_of_uint d) = true.
Proof.
  induction d as [|d IH|d IH|d IH|d IH|d IH|d IH|d IH|d IH|d IH|d IH];
    [reflexivity|..]; exact IH.
Qed.

(** The digits printed for a positive number: one at least, digits only,
    writing that number. *)
Lemma to_uint_digits (p : positive) :
  exists c r,
    DecimalString.NilZero.string_of_uint (Pos.to_uint p) = String c r /\
    isdigit c = true /\ all_digits (String c r) = true /\
    digits_value 0 (String c r) = Zpos p.
Proof.
  pose proof (DecimalPos.Unsigned.to_uint_nonnil p) as Hnil.
  pose proof (DecimalPos.Unsigned.of_to p) as Hval.
  pose proof (all_digits_uint (Pos.to_uint p)) as Hall.
  pose proof (digits_value_uint (Pos.to_uint p)) as Hdv.
  rewrite Hval in Hdv.
  assert (E : DecimalString.NilZero.string_of_uint (Pos.to_uint p) =
              DecimalString.NilEmpty.string_of_uint (Pos.to_uint p))
    by (destruct (Pos.to_uint p); [congruence|reflexivity..]).
  rewrite E.
  destruct (DecimalString.NilEmpty.string_of_uint (Pos.to_uint p)) as [|c r] eqn:Es.
  - destruct (Pos.to_uint p); discriminate || congruence.
  - exists c, r. simpl in Hall. apply andb_true_iff in Hall as [Hc Hr].
    simpl. rewrite Hc, Hr. auto.
Qed.

(** What [std::cout << v] prints is an integer token of value [v]. *)
Lemma to_string_token (v : Z) :
  is_decimal_integer (to_string v) = true /\ decimal_value (to_string v) = v.
Proof.
  unfold to_string. destruct v as [|p|p]; [split; reflexivity|..];
    cbn [Z.to_int DecimalString.NilZero.string_of_int];
    destruct (to_uint_digits p) as (c & r & -> & Hc & Hall & Hv).
  - unfold is_decimal_integer, decimal_value.
    assert (Hs : Ascii.eqb c "-" || Ascii.eqb c "+" = false).
    { destruct (Ascii.eqb c "-" || Ascii.eqb c "+") eqn:Hs; [|reflexivity].
      apply sign_not_digit in Hs as [Hd _]. congruence. }
    rewrite Hs. apply orb_false_iff in Hs as [-> ->]. auto.
  - unfold is_decimal_integer, decimal_value. cbn [Ascii.eqb orb andb].
    change (Ascii.eqb "-" "-") with true. cbn [orb negb String.eqb andb].
    rewrite Hall, Hv. auto.
Qed.

(** The text printed for [v]: digits, after a minus sign when [v] is
    negative. *)
Lemma to_string_shape (v : Z) :
  exists c r,
    isdigit c = true /\ all_digits (String c r) = true /\
    ((0 <= v /\ to_string v = String c r /\
      digits_value 0 (String c r) = v) \/
     (v < 0 /\ to_string v = String "-" (String c r) /\
      digits_value 0 (String c r) = - v)).
Proof.
  destruct v as [|p|p].
  - exists "0"%char, "". repeat split; try reflexivity. left.
    repeat split; first [lia|reflexivity].
  - destruct (to_uint_digits p) as (c & r & E & Hc & Hall & Hv).
    exists c, r. repeat split; try assumption. left.
    split; [lia|split; [|exact Hv]].
    unfold to_string. cbn [Z.to_int DecimalString.NilZero.string_of_int]. exact E.
  - destruct (to_uint_digits p) as (c & r & E & Hc & Hall & Hv).
    exists c, r. repeat split; try assumption. right.
    split; [lia|split].
    + unfold to_string. cbn [Z.to_int DecimalString.NilZero.string_of_int].
      rewrite E. reflexivity.
    + rewrite Hv. reflexivity.
Qed.

(** Reading back what [std::cout << v] printed, whatever whitespace stands
    before it and whatever text that is no digit follows it. *)
Lemma extract_int_to_string (ws rest : string) (v : Z) :
  all_space ws = true -> starts_nondigit rest = true ->
  extract_int (ws +:+ to_string v +:+ rest) =
    if in_int_range v then Some (v, rest) else None.
Proof.
  intros Hws Ht.
  destruct (to_string_shape v) as (c & r & Hc & Hall & [(_ & E & Hv)|(_ & E & Hv)]);
    rewrite E.
  - rewrite (extract_int_unsigned _ c (r +:+ rest)); [| |exact Hc].
    + rewrite <- string_app_cons, digits_app by assumption.
      cbv zeta. rewrite Hv. reflexivity.
    + rewrite skipws_app_space by exact Hws.
      rewrite string_app_cons. cbn [skipws].
      rewrite (isdigit_not_space c Hc). unfold sign.
      destruct (Ascii.eqb c "-" || Ascii.eqb c "+") eqn:Hs.
      * apply sign_not_digit in Hs as [Hd _]. congruence.
      * apply orb_false_iff in Hs as [-> ->]. reflexivity.
  - rewrite (extract_int_negative _ c (r +:+ rest)); [| |exact Hc].
    + rewrite <- string_app_cons, digits_app by assumption.
      cbv zeta. rewrite Hv, Z.opp_involutive. reflexivity.
    + rewrite skipws_app_space by exact Hws.
      rewrite !string_app_cons. reflexivity.
Qed.

(** Printing an [int] and extracting it again gives the [int] back: for
    every value an [int] holds, the extraction applied to optional
    whitespace, the text [std::cout << v] prints and a rest that does not go
    on with a digit returns [v] and leaves the rest unread. *)
Theorem print_then_extract (ws rest : string) (v : Z) :
  in_int_range v = true -> all_space ws = true ->
  starts_nondigit rest = true ->
  extract_int (ws +:+ to_string v +:+ rest) = Some (v, rest).
Proof.
  intros Hv Hws Ht. rewrite extract_int_to_string by assumption.
  rewrite Hv. reflexivity.
Qed.

Lemma print_then_extract_witness :
  extract_int (" " +:+ to_string (-2147483648) +:+ endl) =
    Some (-2147483648, endl).
Proof.
  apply (print_then_extract " " endl (-2147483648)); reflexivity.
Defined.

(** The token GT followed by the decimal text of an integer builds, in
    both factories, the greater-than-filter with that integer as threshold
    when an [int] holds it, and is rejected as an invalid GT argument when
    it does not. *)
Theorem gt_token_of_threshold (t : Z) :
  Pipeline.create_filter ("GT" +:+ to_string t) =
    (if in_int_range t then Ok (GreaterThanFilter t)
     else Throw (invalid_argument "Invalid GT filter format")) /\
  Registry.create_filter ("GT" +:+ to_string t) =
    (if in_int_range t then Ok (GreaterThanFilter t)
     else Throw (invalid_argument
                   ("Invalid GT filter format: " +:+ "GT" +:+ to_string t))).
Proof.
  rewrite pipeline_create_filter_gt, registry_create_filter_gt.
  pose proof (extract_int_to_string "" "" t eq_refl eq_refl) as E.
  rewrite string_app_nil_l, string_app_nil_r in E. rewrite E.
  destruct (in_int_range t); split; reflexivity.
Qed.

Lemma extract_int_skip (ws s : string) :
  all_space ws = true -> extract_int (ws +:+ s) = extract_int s.
Proof.
  intros Hws. unfold extract_int. rewrite skipws_app_space by exact Hws.
  reflexivity.
Qed.

Lemma read_stream_skip (ws s : string) :
  all_space ws = true -> read_stream (ws +:+ s) = read_stream s.
Proof.
  intros Hws. rewrite (read_stream_unfold (ws +:+ s)), (read_stream_unfold s).
  rewrite extract_int_skip by exact Hws. reflexivity.
Qed.

(** The numbers the reader returns are values of [int]. *)
Lemma read_stream_in_range (content : string) :
  Forall (fun v => in_int_range v = true) (read_stream content).
Proof.
  unfold read_stream. generalize (S (String.length content)) as fuel.
  intros fuel. revert content.
  induction fuel as [|fuel IH]; intros content; [constructor|].
  cbn [read_loop]. destruct (extract_int content) as [[v rest]|] eqn:E;
    [|constructor].
  constructor; [|apply IH].
  apply extract_int_elim in E as (ws & d & _ & _ & Hd & <- & _).
  apply andb_true_iff in Hd. tauto.
Qed.

(** The lines of the print observer read back as the values printed. *)
Lemma read_stream_kept_lines (values : list Z) (tail : string) :
  Forall (fun v => in_int_range v = true) values ->
  read_stream (kept_lines values +:+ tail) = values ++ read_stream tail.
Proof.
  induction 1 as [|v values Hv _ IH]; [reflexivity|].
  change (kept_lines (v :: values))
    with (to_string v +:+ endl +:+ kept_lines values).
  rewrite !string_app_assoc, read_stream_unfold.
  pose proof (print_then_extract "" (endl +:+ kept_lines values +:+ tail) v
                Hv eq_refl eq_refl) as E.
  rewrite string_app_nil_l in E. rewrite E.
  rewrite (read_stream_skip endl) by reflexivity. rewrite IH. reflexivity.
Qed.

Lemma read_stream_report (f : INumberFilter) (numbers : list Z) :
  Forall (fun v => in_int_range v = true) numbers ->
  read_stream (report f numbers) = List.filter (keep f) numbers.
Proof.
  intros Hr. unfold report. rewrite read_stream_kept_lines.
  - rewrite read_stream_unfold. cbn. apply app_nil_r.
  - apply List.Forall_forall. intros v Hin.
    apply List.filter_In in Hin as [Hin _].
    exact (proj1 (List.Forall_forall _ _) Hr v Hin).
Qed.

Lemma filter_keep_twice (f : INumberFilter) (numbers : list Z) :
  List.filter (keep f) (List.filter (keep f) numbers) =
  List.filter (keep f) numbers.
Proof.
  induction numbers as [|n numbers IH]; [reflexivity|].
  cbn [List.filter]. destruct (keep f n) eqn:Hk; [|exact IH].
  cbn [List.filter]. rewrite Hk, IH. reflexivity.
Qed.

Lemma report_of_own_output (f : INumberFilter) (content : string) :
  report f (read_stream (report f (read_stream content))) =
  report f (read_stream content).
Proof.
  rewrite read_stream_report by apply read_stream_in_range.
  unfold report. rewrite filter_keep_twice. reflexivity.
Qed.

(** Run on a file that holds what an earlier run with the same token
    printed on standard output, either version prints the same again: the
    reader takes the printed values back and stops at the summary line, and
    the filter keeps every value it has kept before. *)
Theorem pipeline_reads_its_own_output (fs : filesystem)
    (prog prog' token filename filename' content : string) :
  fs filename = Some content ->
  stdout (execute (Pipeline.main
            (single_file filename'
               (stdout (execute (Pipeline.main fs [prog; token; filename]))))
            [prog'; token; filename'])) =
    stdout (execute (Pipeline.main fs [prog; token; filename])) /\
  stdout (execute (Registry.main
            (single_file filename'
               (stdout (execute (Registry.main fs [prog; token; filename]))))
            [prog'; token; filename'])) =
    stdout (execute (Registry.main fs [prog; token; filename])).
Proof.
  intros Hfs. rewrite !pipeline_outcome, !registry_outcome, Hfs.
  unfold single_file. rewrite String.eqb_refl. split.
  - destruct (Pipeline.create_filter token) as [f|e]; [|reflexivity].
    cbn [stdout]. apply report_of_own_output.
  - destruct (Registry.create_filter token) as [f|e]; [|reflexivity].
    cbn [stdout]. apply report_of_own_output.
Qed.

Lemma pipeline_reads_its_own_output_witness :
  stdout (execute (Pipeline.main
            (single_file "kept.txt"
               (stdout (execute (Pipeline.main
                          (single_file "numbers.txt" "3 -4 5 6")
                          ["p"; "EVEN"; "numbers.txt"]))))
            ["p"; "EVEN"; "kept.txt"])) =
    stdout (execute (Pipeline.main (single_file "numbers.txt" "3 -4 5 6")
                       ["p"; "EVEN"; "numbers.txt"])) /\
  stdout (execute (Registry.main
            (single_file "kept.txt"
               (stdout (execute (Registry.main
                          (single_file "numbers.txt" "3 -4 5 6")
                          ["p"; "EVEN"; "numbers.txt"]))))
            ["p"; "EVEN"; "kept.txt"])) =
    stdout (execute (Registry.main (single_file "numbers.txt" "3 -4 5 6")
                       ["p"; "EVEN"; "numbers.txt"])).
Proof.
  apply (pipeline_reads_its_own_output (single_file "numbers.txt" "3 -4 5 6")
           "p" "p" "EVEN" "numbers.txt" "kept.txt" "3 -4 5 6").
  reflexivity.
Defined.

(** ** The registry, whatever the order of its entries *)

(** The range-for calls the factory of the first entry whose key stands at
    the front of the token. *)
Lemma create_filter_in_matching (m : Registry.registry_map) (token : string) :
  Registry.create_filter_in m token =
    match matching_entries m token with
    | [] => Throw (invalid_argument ("Unknown filter: " +:+ token))
    | (_, factory) :: _ => factory token
    end.
Proof.
  induction m as [|[key factory] m IH]; [reflexivity|].
  unfold matching_entries. cbn [Registry.create_filter_in List.filter fst].
  destruct (rfind_at_0 token key); [reflexivity|exact IH].
Qed.

Lemma matching_entries_perm (m m' : Registry.registry_map) (token : string) :
  Permutation m m' ->
  Permutation (matching_entries m token) (matching_entries m' token).
Proof.
  unfold matching_entries.
  induction 1 as [|e m m' _ IH|e e' m|m1 m2 m3 _ IH1 _ IH2];
    cbn [List.filter].
  - constructor.
  - destruct (rfind_at_0 token (fst e)); [constructor|]; exact IH.
  - destruct (rfind_at_0 token (fst e)), (rfind_at_0 token (fst e'));
      try reflexivity. constructor.
  - etransitivity; eassumption.
Qed.

(** No token begins with two of the keys EVEN, GT and ODD. *)
Lemma registry_one_match (token : string) :
  (length (matching_entries Registry.registry token) <= 1)%nat.
Proof.
  rewrite registry_entries. unfold matching_entries, rfind_at_0.
  cbn [List.filter fst].
  destruct (String.prefix "EVEN" token) eqn:HE.
  { apply prefix_split in HE as [r ->].
    change (String.prefix "GT" ("EVEN" +:+ r)) with false.
    change (String.prefix "ODD" ("EVEN" +:+ r)) with false.
    cbn [length]. lia. }
  destruct (String.prefix "GT" token) eqn:HG.
  { apply prefix_split in HG as [r ->].
    change (String.prefix "ODD" ("GT" +:+ r)) with false.
    cbn [length]. lia. }
  destruct (String.prefix "ODD" token); cbn [length]; lia.
Qed.

(** The registry factory does not depend on the order in which the map
    hands out its entries: visiting the three entries in any order, the
    range-for of [create_filter] returns or throws the same, since no token
    begins with two of the keys. *)
Theorem registry_order_irrelevant (m : Registry.registry_map)
    (token : string) :
  Permutation m Registry.registry ->
  Registry.create_filter_in m token = Registry.create_filter token.
Proof.
  intros Hperm. unfold Registry.create_filter.
  rewrite !create_filter_in_matching.
  pose proof (matching_entries_perm _ _ token Hperm) as Hm.
  pose proof (registry_one_match token) as Hone.
  destruct (matching_entries Registry.registry token) as [|e [|e' rest]].
  - apply Permutation_sym, Permutation_nil in Hm. rewrite Hm. reflexivity.
  - apply Permutation_sym, Permutation_length_1_inv in Hm. rewrite Hm.
    reflexivity.
  - cbn [length] in Hone. lia.
Qed.

Lemma registry_order_irrelevant_witness :
  Registry.create_filter_in (rev Registry.registry) "GT7" =
  Registry.create_filter "GT7".
Proof.
  apply (registry_order_irrelevant (rev Registry.registry) "GT7").
  apply Permutation_sym, Permutation_rev.
Defined.

(** ** A run aborts before the observers, or completes *)

(** A run of either version with two arguments ends in one of two ways:
    with exit code 2, no observer called and nothing on standard output; or
    with exit code 0 after [on_finished] has been called on the print
    observer and on the count observer, in this order, once each. No
    exception leaves [main]. *)
Theorem abort_or_complete (fs : filesystem) (prog token filename : string) :
  match Pipeline.main fs [prog; token; filename] initial_world with
  | (Ok code, w) =>
      (code = 2 /\ calls w = [] /\ cout w = "") \/
      (code = 0 /\ finished_calls (calls w) = [0%nat; 1%nat])
  | (Throw _, _) => False
  end /\
  match Registry.main fs [prog; token; filename] initial_world with
  | (Ok code, w) =>
      (code = 2 /\ calls w = [] /\ cout w = "") \/
      (code = 0 /\ finished_calls (calls w) = [0%nat; 1%nat])
  | (Throw _, _) => False
  end.
Proof.
  assert (Hdone : forall (f : INumberFilter) (numbers : list Z),
    finished_calls ([] ++ number_calls f [0%nat; 1%nat] numbers ++
                    List.map on_finished_call [0%nat; 1%nat]) =
    [0%nat; 1%nat]).
  { intros f numbers. cbn [app].
    rewrite finished_calls_app, finished_calls_number_calls. reflexivity. }
  unfold Pipeline.main, Registry.main. rewrite !main_with_unfold. split.
  - destruct (Pipeline.create_filter token) as [f|e]; [|left; auto].
    destruct (fs filename) as [content|] eqn:Hfs.
    + destruct (run_returns (Pipeline.read_numbers fs) f [0%nat; 1%nat]
                  filename world_of_main world_of_main (read_stream content))
        as (w' & E & C & _);
        [unfold Pipeline.read_numbers; rewrite Hfs; reflexivity|].
      rewrite E. right. split; [reflexivity|]. rewrite C. apply Hdone.
    + destruct (run_returns (Pipeline.read_numbers fs) f [0%nat; 1%nat]
                  filename world_of_main
                  {| objects := [PrintObserver; CountObserver 0]; cout := "";
                     cerr := "" +:+ "Error: Cannot open file " +:+ filename +:+ endl;
                     calls := [] |} [])
        as (w' & E & C & _);
        [unfold Pipeline.read_numbers; rewrite Hfs; reflexivity|].
      rewrite E. right. split; [reflexivity|]. rewrite C. apply Hdone.
  - destruct (Registry.create_filter token) as [f|e]; [|left; auto].
    destruct (fs filename) as [content|] eqn:Hfs.
    + destruct (run_returns (Registry.read_numbers fs) f [0%nat; 1%nat]
                  filename world_of_main world_of_main (read_stream content))
        as (w' & E & C & _);
        [unfold Registry.read_numbers; rewrite Hfs; reflexivity|].
      rewrite E. right. split; [reflexivity|]. rewrite C. apply Hdone.
    + rewrite (run_throws (Registry.read_numbers fs) f [0%nat; 1%nat] filename
                 world_of_main world_of_main
                 (runtime_error ("Cannot open file: " +:+ filename)));
        [left; auto|].
      unfold Registry.read_numbers. rewrite Hfs. reflexivity.
Qed.

(** ** Counting *)

(** The even-filter and the odd-filter split every sequence: each number
    is kept by exactly one of them, so the two counts add up to the length
    of the sequence. *)
Theorem even_odd_partition (numbers : list Z) :
  (length (List.filter (keep EvenFilter) numbers) +
   length (List.filter (keep OddFilter) numbers) = length numbers)%nat.
Proof.
  induction numbers as [|n numbers IH]; [reflexivity|].
  cbn [List.filter]. rewrite keep_even_negb_odd.
  destruct (keep OddFilter n); cbn [negb length]; lia.
Qed.

Lemma wrap_int_small (v : Z) : INT_MIN <= v <= INT_MAX -> wrap_int v = v.
Proof.
  unfold INT_MIN, INT_MAX, wrap_int. intros H.
  rewrite Z.mod_small by lia. lia.
Qed.

(** After the pass over the numbers with the two observers of [main], the
    count observer holds the number of values kept, as long as an [int]
    holds that number, and the print observer has printed them, one on a
    line. *)
Theorem count_is_number_kept (f : INumberFilter) (numbers : list Z)
    (w : world) :
  objects w = [PrintObserver; CountObserver 0] ->
  Z.of_nat (length (List.filter (keep f) numbers)) <= INT_MAX ->
  exists w',
    for_each numbers (fun number =>
      if keep f number
      then for_each [0%nat; 1%nat] (fun obs => call_on_number obs number)
      else mret tt) w = (Ok tt, w') /\
    objects w' =
      [PrintObserver;
       CountObserver (Z.of_nat (length (List.filter (keep f) numbers)))] /\
    cout w' = cout w +:+ kept_lines (List.filter (keep f) numbers).
Proof.
  intros Hw Hmax.
  destruct (pass_print_count f numbers w 0 Hw) as (w' & E & O & C & _).
  exists w'. rewrite E, O, C, Z.add_0_l, wrap_int_small; [auto|].
  unfold INT_MIN. lia.
Qed.

Lemma count_is_number_kept_witness :
  exists w',
    for_each [3; 4; 6] (fun number =>
      if keep EvenFilter number
      then for_each [0%nat; 1%nat] (fun obs => call_on_number obs number)
      else mret tt) world_of_main = (Ok tt, w') /\
    objects w' =
      [PrintObserver;
       CountObserver
         (Z.of_nat (length (List.filter (keep EvenFilter) [3; 4; 6])))] /\
    cout w' =
      cout world_of_main +:+
      kept_lines (List.filter (keep EvenFilter) [3; 4; 6]).
Proof.
  apply (count_is_number_kept EvenFilter [3; 4; 6] world_of_main).
  - reflexivity.
  - vm_compute. discriminate.
Defined.

(** * The logging demo *)

Lemma ascii_eqb_N (a b : ascii) :
  Ascii.eqb a b = (N_of_ascii a =? N_of_ascii b)%N.
Proof.
  destruct (Ascii.eqb_spec a b) as [->|Hne].
  - symmetry. apply N.eqb_refl.
  - symmetry. apply N.eqb_neq. intros E. apply Hne.
    rewrite <- (ascii_N_embedding a), <- (ascii_N_embedding b), E.
    reflexivity.
Qed.

Lemma N_of_tolower (c : ascii) :
  N_of_ascii (Logging.tolower c) =
    (if (65 <=? N_of_ascii c) && (N_of_ascii c <=? 90)
     then N_of_ascii c + 32 else N_of_ascii c)%N.
Proof.
  unfold Logging.tolower.
  destruct ((65 <=? N_of_ascii c) && (N_of_ascii c <=? 90))%N eqn:Hup;
    [|reflexivity].
  apply andb_true_iff in Hup as [_ H90]. apply N.leb_le in H90.
  apply N_ascii_embedding. lia.
Qed.

(** Against a character that [tolower] leaves alone, comparing after
    [tolower] is comparing up to the case of the letter. *)
Lemma tolower_eqb (c d : ascii) :
  Logging.tolower d = d ->
  Ascii.eqb (Logging.tolower c) d = Logging.spells_char c d.
Proof.
  intros Hd. apply (f_equal N_of_ascii) in Hd. rewrite N_of_tolower in Hd.
  unfold Logging.spells_char. rewrite !ascii_eqb_N, N_of_tolower.
  destruct ((65 <=? N_of_ascii d) && (N_of_ascii d <=? 90))%N eqn:Hdu; [lia|].
  destruct ((65 <=? N_of_ascii c) && (N_of_ascii c <=? 90))%N eqn:Hcu.
  - destruct (N.eqb_spec (N_of_ascii c) (N_of_ascii d)) as [E|_];
      [|reflexivity].
    rewrite E, Hdu in Hcu. discriminate.
  - cbn [andb]. rewrite orb_false_r. reflexivity.
Qed.

Lemma lowercase_eqb (input name : string) :
  Logging.lowercase name = name ->
  String.eqb (Logging.lowercase input) name = Logging.spells input name.
Proof.
  revert name. induction input as [|c input IH]; intros [|d name] Hn;
    try reflexivity.
  injection Hn as Hd Hn.
  cbn [Logging.lowercase String.eqb Logging.spells].
  rewrite (tolower_eqb c d Hd), (IH name Hn).
  destruct (Logging.spells_char c d); reflexivity.
Qed.

(** [parse_sink_type] takes the three names in any mix of upper and lower
    case, and nothing else: the argument has to spell console, file or
    none character by character, an upper-case letter counting as its
    lower-case one. What it rejects it names in the exception as it was
    given, not lower-cased. *)
Theorem parse_sink_type_ignores_case (input : string) :
  Logging.parse_sink_type input =
    if Logging.spells input "console" then Ok Logging.CONSOLE
    else if Logging.spells input "file" then Ok Logging.FILE
    else if Logging.spells input "none" then Ok Logging.NONE
    else Throw (invalid_argument ("Unknown sink type: " +:+ input)).
Proof.
  unfold Logging.parse_sink_type.
  rewrite !lowercase_eqb by reflexivity. reflexivity.
Qed.

Lemma parse_sink_type_throws (input : string) (e : exception) :
  Logging.parse_sink_type input = Throw e ->
  e = invalid_argument ("Unknown sink type: " +:+ input).
Proof.
  unfold Logging.parse_sink_type.
  repeat match goal with
         | |- context [if ?b then _ else _] => destruct b; [discriminate|]
         end.
  congruence.
Qed.

(** How the demo ends, started with no logger yet and nothing written. An
    argument that is no sink name ends it with exit code 1 before the logger
    is created: nothing is on standard output, app.log is as it was, and
    standard error holds the error line with the argument and the line of
    valid options. Otherwise (a sink name, or no argument) it exits with 0,
    standard error is empty and the logger holds the sink asked for, the
    console sink without an argument. *)
Theorem logging_main_end (argv : list string) (file : option string)
    (opens : bool) :
  match argv with
  | _ :: arg :: _ =>
      match Logging.parse_sink_type arg with
      | Throw _ =>
          Logging.main argv (Logging.start file opens) =
            (1, {| Logging.out := "";
                   Logging.err :=
                     ("Error: " +:+ "Unknown sink type: " +:+ arg +:+ endl) +:+
                     "Valid options: console, file, none" +:+ endl;
                   Logging.app_log := file;
                   Logging.app_log_opens := opens;
                   Logging.static_instance := None |})
      | Ok type =>
          fst (Logging.main argv (Logging.start file opens)) = 0 /\
          Logging.err (snd (Logging.main argv (Logging.start file opens))) = "" /\
          Logging.static_instance
            (snd (Logging.main argv (Logging.start file opens))) =
            Some {| Logging.sink_ := Some (Logging.sink_of type) |}
      end
  | _ =>
      fst (Logging.main argv (Logging.start file opens)) = 0 /\
      Logging.err (snd (Logging.main argv (Logging.start file opens))) = "" /\
      Logging.static_instance
        (snd (Logging.main argv (Logging.start file opens))) =
        Some {| Logging.sink_ := Some Logging.ConsoleSink |}
  end.
Proof.
  destruct argv as [|prog [|arg argv]].
  - repeat split; reflexivity.
  - repeat split; reflexivity.
  - destruct (Logging.parse_sink_type arg) as [type|e] eqn:Hparse.
    + unfold Logging.main. rewrite Hparse.
      destruct type, opens, file; repeat split; reflexivity.
    + apply parse_sink_type_throws in Hparse as Hwhat.
      unfold Logging.main. rewrite Hparse, Hwhat. reflexivity.
Qed.

(** Where the demo writes, started with no logger yet and nothing
    written. The constructor of the logger announces the console sink
    first, whatever sink is asked for. With the console sink the three test
    messages go to standard output and app.log is as it was; with the file
    sink they are appended to what app.log held (a new file when there was
    none), or dropped when the file does not open; with the none sink they
    go nowhere. An argument that is no sink name leaves both untouched. *)
Theorem logging_main_writes (argv : list string) (file : option string)
    (opens : bool) :
  let messages := ["Test message 1"; "Test message 2"; "Test message 3"] in
  let constructed := "Log sink set to CONSOLE." +:+ endl in
  let done := "Logging complete." +:+ endl in
  let w := snd (Logging.main argv (Logging.start file opens)) in
  match argv with
  | _ :: arg :: _ =>
      match Logging.parse_sink_type arg with
      | Ok Logging.CONSOLE =>
          Logging.out w =
            constructed +:+ "Log sink set to CONSOLE." +:+ endl +:+
            Logging.tagged_lines "[Console] " messages +:+ done /\
          Logging.app_log w = file
      | Ok Logging.FILE =>
          Logging.out w =
            constructed +:+ "Log sink set to FILE." +:+ endl +:+ done /\
          Logging.app_log w =
            if opens
            then Some (Logging.content_of file +:+
                       Logging.tagged_lines "[File] " messages)
            else file
      | Ok Logging.NONE =>
          Logging.out w =
            constructed +:+ "Log sink set to NONE (no output)." +:+ endl +:+
            done /\
          Logging.app_log w = file
      | Throw _ => Logging.out w = "" /\ Logging.app_log w = file
      end
  | _ =>
      Logging.out w =
        "No sink type specified. Using default: CONSOLE." +:+ endl +:+
        constructed +:+ "Log sink set to CONSOLE." +:+ endl +:+
        Logging.tagged_lines "[Console] " messages +:+ done /\
      Logging.app_log w = file
  end.
Proof.
  cbv zeta. destruct argv as [|prog [|arg argv]].
  - split; reflexivity.
  - split; reflexivity.
  - unfold Logging.main.
    destruct (Logging.parse_sink_type arg) as [[| |]|e];
      try (split; reflexivity).
    destruct opens, file as [content|]; split; try reflexivity;
      cbn; rewrite ?string_app_assoc; reflexivity.
Qed.

(** ** The logger under any sequence of calls *)

Lemma grows_refl (w : Logging.process) : Logging.grows w w.
Proof.
  unfold Logging.grows. repeat split.
  - exists "". symmetry. apply string_app_nil_r.
  - exists "". symmetry. apply string_app_nil_r.
  - destruct (Logging.app_log w); [discriminate|exact I].
Qed.

Lemma grows_trans (w1 w2 w3 : Logging.process) :
  Logging.grows w1 w2 -> Logging.grows w2 w3 -> Logging.grows w1 w3.
Proof.
  intros (E1 & O1 & [t1 T1] & [a1 A1] & K1) (E2 & O2 & [t2 T2] & [a2 A2] & K2).
  unfold Logging.grows. repeat split.
  - congruence.
  - congruence.
  - exists (t1 +:+ t2). rewrite T2, T1. apply string_app_assoc.
  - exists (a1 +:+ a2). rewrite A2, A1. apply string_app_assoc.
  - destruct (Logging.app_log w1); [|exact I].
    destruct (Logging.app_log w2); [exact K2|congruence].
Qed.

Lemma grows_print (text : string) (w : Logging.process) :
  Logging.grows w (Logging.print text w).
Proof.
  unfold Logging.grows, Logging.print. cbn. repeat split.
  - exists text. reflexivity.
  - exists "". symmetry. apply string_app_nil_r.
  - destruct (Logging.app_log w); [discriminate|exact I].
Qed.

Lemma grows_store_instance (this : Logging.Logger) (w : Logging.process) :
  Logging.grows w (Logging.store_instance this w).
Proof.
  unfold Logging.grows, Logging.store_instance. cbn. repeat split.
  - exists "". symmetry. apply string_app_nil_r.
  - exists "". symmetry. apply string_app_nil_r.
  - destruct (Logging.app_log w); [discriminate|exact I].
Qed.

Lemma grows_append_app_log (text : string) (w : Logging.process) :
  Logging.grows w (Logging.append_app_log text w).
Proof.
  unfold Logging.append_app_log.
  destruct (Logging.app_log_opens w) eqn:Hopen; [|apply grows_refl].
  unfold Logging.grows. cbn. repeat split.
  - symmetry. exact Hopen.
  - exists "". symmetry. apply string_app_nil_r.
  - exists text. destruct (Logging.app_log w); reflexivity.
  - destruct (Logging.app_log w); [discriminate|exact I].
Qed.

Lemma grows_write (sink : Logging.LogSink) (msg : string)
    (w : Logging.process) :
  Logging.grows w (Logging.write sink msg w).
Proof.
  destruct sink; cbn [Logging.write].
  - apply grows_print.
  - apply grows_append_app_log.
  - apply grows_refl.
Qed.

Lemma grows_Logger_set_sink (type : Logging.SinkType) (this : Logging.Logger)
    (w : Logging.process) :
  Logging.grows w (snd (Logging.Logger_set_sink type this w)).
Proof. destruct type; apply grows_print. Qed.

Lemma grows_instance (w : Logging.process) :
  Logging.grows w (snd (Logging.instance w)).
Proof.
  unfold Logging.instance.
  destruct (Logging.static_instance w); [apply grows_refl|].
  cbn. eapply grows_trans; [apply grows_print|apply grows_store_instance].
Qed.

Lemma grows_perform (op : Logging.operation) (w : Logging.process) :
  Logging.grows w (Logging.perform op w).
Proof.
  destruct op as [type|msg]; cbn [Logging.perform].
  - unfold Logging.set_sink.
    pose proof (grows_instance w) as Hi.
    destruct (Logging.instance w) as [this w1]. cbn [snd] in Hi.
    pose proof (grows_Logger_set_sink type this w1) as Hs.
    destruct (Logging.Logger_set_sink type this w1) as [this' w2].
    cbn [snd] in Hs.
    eapply grows_trans; [exact Hi|].
    eapply grows_trans; [exact Hs|apply grows_store_instance].
  - unfold Logging.log.
    pose proof (grows_instance w) as Hi.
    destruct (Logging.instance w) as [this w1]. cbn [snd] in Hi.
    eapply grows_trans; [exact Hi|]. unfold Logging.Logger_log.
    destruct (Logging.sink_ this); [apply grows_write|apply grows_refl].
Qed.

(** Whatever calls of [set_sink] and [log] a client makes, in whatever
    order and from whatever state, the logger never writes on standard
    error, and it only appends: standard output and app.log keep what they
    held in front of what is added, and app.log is never removed or
    truncated. *)
Theorem logger_only_appends (ops : list Logging.operation)
    (w : Logging.process) :
  Logging.grows w (Logging.perform_all ops w).
Proof.
  unfold Logging.perform_all. revert w.
  induction ops as [|op ops IH]; intros w; [apply grows_refl|].
  cbn [fold_left]. eapply grows_trans; [apply grows_perform|apply IH].
Qed.

Lemma set_sink_installs (type : Logging.SinkType) (w : Logging.process) :
  Logging.static_instance (Logging.set_sink type w) =
    Some {| Logging.sink_ := Some (Logging.sink_of type) |}.
Proof.
  unfold Logging.set_sink, Logging.instance.
  destruct (Logging.static_instance w); destruct type; reflexivity.
Qed.

(** With the logger created and holding a sink, [log] is [write] on that
    sink. *)
Lemma log_writes (sink : Logging.LogSink) (msg : string)
    (w : Logging.process) :
  Logging.static_instance w = Some {| Logging.sink_ := Some sink |} ->
  Logging.log msg w = Logging.write sink msg w /\
  Logging.static_instance (Logging.write sink msg w) =
    Some {| Logging.sink_ := Some sink |}.
Proof.
  intros Hw. unfold Logging.log, Logging.instance. rewrite Hw. split.
  - reflexivity.
  - destruct sink; cbn [Logging.write]; try exact Hw.
    unfold Logging.append_app_log.
    destruct (Logging.app_log_opens w); exact Hw.
Qed.

Lemma log_all_console (msgs : list string) (w : Logging.process) :
  Logging.static_instance w =
    Some {| Logging.sink_ := Some Logging.ConsoleSink |} ->
  Logging.out (Logging.perform_all (List.map Logging.do_log msgs) w) =
    Logging.out w +:+ Logging.tagged_lines "[Console] " msgs /\
  Logging.app_log (Logging.perform_all (List.map Logging.do_log msgs) w) =
    Logging.app_log w.
Proof.
  unfold Logging.perform_all. revert w.
  induction msgs as [|msg msgs IH]; intros w Hw.
  - cbn. rewrite string_app_nil_r. auto.
  - cbn [List.map fold_left Logging.perform].
    destruct (log_writes _ msg w Hw) as [-> Hw'].
    destruct (IH _ Hw') as [Hout Hfile]. rewrite Hout, Hfile. cbn.
    rewrite !string_app_assoc. auto.
Qed.

Lemma log_all_file (msgs : list string) (w : Logging.process) :
  Logging.static_instance w =
    Some {| Logging.sink_ := Some Logging.FileSink |} ->
  Logging.out (Logging.perform_all (List.map Logging.do_log msgs) w) =
    Logging.out w /\
  Logging.content_of
    (Logging.app_log (Logging.perform_all (List.map Logging.do_log msgs) w)) =
    Logging.content_of (Logging.app_log w) +:+
    (if Logging.app_log_opens w
     then Logging.tagged_lines "[File] " msgs else "").
Proof.
  unfold Logging.perform_all. revert w.
  induction msgs as [|msg msgs IH]; intros w Hw.
  - cbn. destruct (Logging.app_log_opens w); rewrite string_app_nil_r; auto.
  - cbn [List.map fold_left Logging.perform].
    destruct (log_writes _ msg w Hw) as [-> Hw'].
    destruct (IH _ Hw') as [Hout Hfile]. rewrite Hout, Hfile.
    cbn [Logging.write]. unfold Logging.append_app_log.
    destruct (Logging.app_log_opens w) eqn:Hopen.
    + cbn. destruct (Logging.app_log w); cbn;
        rewrite ?string_app_assoc; auto.
    + rewrite Hopen. auto.
Qed.

Lemma log_all_none (msgs : list string) (w : Logging.process) :
  Logging.static_instance w =
    Some {| Logging.sink_ := Some Logging.NullSink |} ->
  Logging.perform_all (List.map Logging.do_log msgs) w = w.
Proof.
  unfold Logging.perform_all.
  induction msgs as [|msg msgs IH]; intros Hw; [reflexivity|].
  cbn [List.map fold_left Logging.perform].
  destruct (log_writes _ msg w Hw) as [-> _]. exact (IH Hw).
Qed.

(** Messages go to the sink set last, and only there. After
    [set_sink(CONSOLE)] any messages logged appear on standard output, one
    line each behind the console tag, and app.log stays as it is; after
    [set_sink(FILE)] they are appended to app.log behind the file tag (or
    dropped when the file does not open) and standard output stays as it
    is; after [set_sink(NONE)] logging changes nothing at all. *)
Theorem messages_go_to_last_sink (type : Logging.SinkType)
    (msgs : list string) (w : Logging.process) :
  let w1 := Logging.set_sink type w in
  let w2 := Logging.perform_all (List.map Logging.do_log msgs) w1 in
  match type with
  | Logging.CONSOLE =>
      Logging.out w2 =
        Logging.out w1 +:+ Logging.tagged_lines "[Console] " msgs /\
      Logging.app_log w2 = Logging.app_log w1
  | Logging.FILE =>
      Logging.out w2 = Logging.out w1 /\
      Logging.content_of (Logging.app_log w2) =
        Logging.content_of (Logging.app_log w1) +:+
        (if Logging.app_log_opens w1
         then Logging.tagged_lines "[File] " msgs else "")
  | Logging.NONE => w2 = w1
  end.
Proof.
  cbv zeta. pose proof (set_sink_installs type w) as Hw.
  destruct type; cbn [Logging.sink_of] in Hw.
  - apply log_all_console. exact Hw.
  - apply log_all_file. exact Hw.
  - apply log_all_none. exact Hw.
Qed.

(** * Evaluations *)

Example extract_int_samples :
  extract_int "  -42abc" = Some (-42, "abc") /\
  extract_int "+7" = Some (7, "") /\
  extract_int "007 8" = Some (7, " 8") /\
  extract_int "-" = None /\
  extract_int "abc" = None /\
  extract_int "2147483647" = Some (2147483647, "") /\
  extract_int "2147483648" = None /\
  extract_int "-2147483648" = Some (-2147483648, "").
Proof. repeat split; reflexivity. Qed.

Example registry_order :
  List.map fst Registry.registry = ["EVEN"; "GT"; "ODD"].
Proof. reflexivity. Qed.

Example all_odd_source :
  execute (Registry.main (single_file "odd.txt" "1 3 5")
             ["number_pipeline"; "EVEN"; "odd.txt"]) =
  {| exit_code := Ok 0;
     stdout := "Total numbers passed filter: 0" +:+ endl;
     stderr := "" |}.
Proof. reflexivity. Qed.

Example logging_with_file_sink :
  Logging.main ["logger"; "FiLe"] (Logging.start (Some "old") true) =
  (0, {| Logging.out :=
           "Log sink set to CONSOLE." +:+ endl +:+
           "Log sink set to FILE." +:+ endl +:+
           "Logging complete." +:+ endl;
         Logging.err := "";
         Logging.app_log :=
           Some ("old" +:+ "[File] Test message 1" +:+ endl +:+
                 "[File] Test message 2" +:+ endl +:+
                 "[File] Test message 3" +:+ endl);
         Logging.app_log_opens := true;
         Logging.static_instance :=
           Some {| Logging.sink_ := Some Logging.FileSink |} |}).
Proof. reflexivity. Qed.

(** [run] called a second time on the same observers goes on counting:
    the count observer is not reset, so it is [main] creating its observers
    anew that makes two runs of the program print the same summary. *)
Example run_again_on_the_same_observers :
  let reader := Pipeline.read_numbers (single_file "n.txt" "3 4 5 6 7 8") in
  cout (snd (run reader EvenFilter [0%nat; 1%nat] "n.txt"
               (snd (run reader EvenFilter [0%nat; 1%nat] "n.txt"
                       world_of_main)))) =
    "4" +:+ endl +:+ "6" +:+ endl +:+ "8" +:+ endl +:+
    "Total numbers passed filter: 3" +:+ endl +:+
    "4" +:+ endl +:+ "6" +:+ endl +:+ "8" +:+ endl +:+
    "Total numbers passed filter: 6" +:+ endl.
Proof. reflexivity. Qed.
